(** * Column virtualisation of fixed-data-table-2: [computeRenderedColumns]

    A shallow embedding of [src/reducers/computeRenderedColumns.js] and the
    properties of its layout decision.

    Numbers are modelled as [Z]: pixel widths, offsets and column indices are
    taken to be integers.  A JavaScript [undefined] field of the anchor is
    [None].  The reducers run in [option]: [None] stands for a computation
    that leaves the integer fragment (arithmetic on [undefined], which
    JavaScript turns into [NaN]), for a read of a column descriptor outside
    the column list (a [TypeError] in JavaScript), and for a viewport walk
    that is cut short by its fuel.  Totality lemmas show that none of these
    happens for a well-formed anchor. *)

From Stdlib Require Import ZArith Bool Lia.
From stdpp Require Import base option numbers list gmap fin_maps.

Local Open Scope Z_scope.

(** ** External collaborators *)

(** [lodash/clamp] on numbers, both bounds given: the upper bound is applied
    first, then the lower one. *)
Definition clamp (number lower upper : Z) : Z :=
  let number := if number <=? upper then number else upper in
  if lower <=? number then number else lower.

(** Modelled from the spec: the Offset Store (the state's
    [columnOffsetIntervalTree], whose implementation is not part of the
    reducer).  It stores one width per column index; [get] is the stored
    width, 0 if never recorded; [sumUntil i] is the sum of the widths of all
    indices below [i]; [set] is the point update. *)
Module OffsetStore.

Definition get (tree : gmap Z Z) (index : Z) : Z := default 0 (tree !! index).

Definition set (tree : gmap Z Z) (index value : Z) : gmap Z Z := <[index := value]> tree.

Definition sumUntil (tree : gmap Z Z) (index : Z) : Z :=
  foldr (fun j acc => get tree j + acc) 0 (seqZ 0 index).

End OffsetStore.

(** Modelled from the spec: the Slot Allocator (the state's
    [columnBufferSet]).  It maps a tracked column index to its rendering
    slot.  [getSize] is the number of tracked columns;
    [getNewPositionForValue] hands out a fresh slot, the next unused index;
    [replaceFurthestValuePosition] evicts the tracked value that lies furthest
    outside the closed window and hands its slot to the new value, or answers
    [None] when no tracked value lies outside the window.  Between two values
    at the same distance the spec leaves the choice open; the larger index is
    taken here. *)
Module SlotAllocator.

Definition getValuePosition (set : gmap Z nat) (value : Z) : option nat := set !! value.

Definition getSize (set : gmap Z nat) : nat := size set.

Definition getNewPositionForValue (set : gmap Z nat) (value : Z) : nat * gmap Z nat :=
  let newPosition := getSize set in
  (newPosition, <[value := newPosition]> set).

(** Index distance of [value] to the closed window; 0 inside it. *)
Definition distanceOutside (lowValue highValue value : Z) : Z :=
  if value <? lowValue then lowValue - value
  else if highValue <? value then value - highValue
  else 0.

Definition further (lowValue highValue : Z) (a b : Z * nat) : bool :=
  let da := distanceOutside lowValue highValue a.1 in
  let db := distanceOutside lowValue highValue b.1 in
  (da <? db) || ((da =? db) && (a.1 <? b.1)).

Definition pickFurthest (lowValue highValue : Z) (entry : Z * nat)
    (best : option (Z * nat)) : option (Z * nat) :=
  if distanceOutside lowValue highValue entry.1 <=? 0 then best
  else match best with
       | None => Some entry
       | Some b => if further lowValue highValue b entry then Some entry else best
       end.

Definition furthest (lowValue highValue : Z) (set : gmap Z nat) : option (Z * nat) :=
  foldr (pickFurthest lowValue highValue) None (map_to_list set).

Definition replaceFurthestValuePosition (set : gmap Z nat) (lowValue highValue newValue : Z)
    : option nat * gmap Z nat :=
  match furthest lowValue highValue set with
  | None => (None, set)
  | Some (valueToReplace, position) =>
      (Some position, <[newValue := position]> (delete valueToReplace set))
  end.

(** Slots are handed out as 0, 1, 2, ...: every slot in use is below the
    tracked count and no slot is shared. *)
Definition wf (set : gmap Z nat) : Prop :=
  (forall value position, set !! value = Some position -> (position < size set)%nat) /\
  (forall v1 v2 position,
      set !! v1 = Some position -> set !! v2 = Some position -> v1 = v2).

End SlotAllocator.

(** ** Data model *)

(** A scrollable column descriptor; only its width matters here. *)
Record Column := { width : Z }.

(** What the Width Oracle [columnWidths(state)] returns. *)
Record ColumnWidths := {
  availableScrollWidth : Z;
  scrollableColumns : list Column;
  maxScrollX : Z;
}.

Record State := {
  scrollX : Z;
  scrolling : bool;
  firstColumnIndex : Z;
  endColumnIndex : Z;
  firstColumnOffset : Z;
  columnOffsets : gmap Z Z;
  columnsToRender : list (option Z);
  columnOffsetIntervalTree : gmap Z Z;
  columnBufferSet : gmap Z nat;
  columnLayout : ColumnWidths;
}.

Record ColumnAnchor := {
  firstIndex : option Z;
  firstOffset : option Z;
  lastIndex : option Z;
}.

Record ColumnRange := {
  endBufferCol : Z;
  endViewportCol : Z;
  firstBufferCol : Z;
  firstViewportCol : Z;
}.

(** Field assignments [state.f = v]. *)
Definition set_scrollX (v : Z) (s : State) : State :=
  {| scrollX := v; scrolling := scrolling s;
     firstColumnIndex := firstColumnIndex s; endColumnIndex := endColumnIndex s;
     firstColumnOffset := firstColumnOffset s; columnOffsets := columnOffsets s;
     columnsToRender := columnsToRender s;
     columnOffsetIntervalTree := columnOffsetIntervalTree s;
     columnBufferSet := columnBufferSet s; columnLayout := columnLayout s |}.

Definition set_columnSpan (first end_ offset : Z) (s : State) : State :=
  {| scrollX := scrollX s; scrolling := scrolling s;
     firstColumnIndex := first; endColumnIndex := end_;
     firstColumnOffset := offset; columnOffsets := columnOffsets s;
     columnsToRender := columnsToRender s;
     columnOffsetIntervalTree := columnOffsetIntervalTree s;
     columnBufferSet := columnBufferSet s; columnLayout := columnLayout s |}.

Definition set_columnOffsetIntervalTree (v : gmap Z Z) (s : State) : State :=
  {| scrollX := scrollX s; scrolling := scrolling s;
     firstColumnIndex := firstColumnIndex s; endColumnIndex := endColumnIndex s;
     firstColumnOffset := firstColumnOffset s; columnOffsets := columnOffsets s;
     columnsToRender := columnsToRender s;
     columnOffsetIntervalTree := v;
     columnBufferSet := columnBufferSet s; columnLayout := columnLayout s |}.

Definition set_rendered (columns : list (option Z)) (offsets : gmap Z Z)
    (bufferSet : gmap Z nat) (s : State) : State :=
  {| scrollX := scrollX s; scrolling := scrolling s;
     firstColumnIndex := firstColumnIndex s; endColumnIndex := endColumnIndex s;
     firstColumnOffset := firstColumnOffset s; columnOffsets := offsets;
     columnsToRender := columns;
     columnOffsetIntervalTree := columnOffsetIntervalTree s;
     columnBufferSet := bufferSet; columnLayout := columnLayout s |}.

(** Modelled from the spec: the Width Oracle [columnWidths(state)].  Its
    three outputs are read off the [columnLayout] field of the state, which
    the reducer never writes. *)
Definition columnWidths (state : State) : ColumnWidths := columnLayout state.

(** Modelled from the spec: [updateColumnWidth(state, columnIdx)], the
    oracle's [measureColumnWidth]: it measures the column, records the width
    into the Offset Store and returns it.  Reading a descriptor outside the
    column list has no result. *)
Definition updateColumnWidth (state : State) (columnIdx : Z) : option (State * Z) :=
  if columnIdx <? 0 then None
  else
    column ← scrollableColumns (columnWidths state) !! Z.to_nat columnIdx;
    Some (set_columnOffsetIntervalTree
            (OffsetStore.set (columnOffsetIntervalTree state) columnIdx (width column))
            state,
          width column).

(** ** The reducer *)

Definition bufferColumnCount : Z := 0.

(** [x >= columnCount] for a possibly [undefined] [x]. *)
Definition geCount (x : option Z) (columnCount : Z) : bool :=
  match x with
  | Some v => columnCount <=? v
  | None => false
  end.

(** The [while] loop that walks the viewport until it has touched enough
    columns to fill its width.  Returns the state, [endIdy] and
    [totalWidth]. *)
Fixpoint walkViewport (fuel : nat) (columnCount availableWidth step : Z)
    (state : State) (columnIdx endIdy totalWidth : Z) : option (State * Z * Z) :=
  match fuel with
  | O => None
  | S fuel' =>
      if (columnIdx <? columnCount) && (0 <=? columnIdx) &&
         (totalWidth <? availableWidth)
      then
        '(state', w) ← updateColumnWidth state columnIdx;
        walkViewport fuel' columnCount availableWidth step state'
                     (columnIdx + step) columnIdx (totalWidth + w)
      else Some (state, endIdy, totalWidth)
  end.

(** The two [for] loops that measure the leading and trailing buffer:
    [n] iterations from [columnIdx] upwards. *)
Fixpoint walkBuffer (n : nat) (state : State) (columnIdx : Z) : option State :=
  match n with
  | O => Some state
  | S n' =>
      '(state', _) ← updateColumnWidth state columnIdx;
      walkBuffer n' state' (columnIdx + 1)
  end.

Definition calculateRenderedColumnRange (state : State) (columnAnchor : ColumnAnchor)
    : option (State * ColumnRange) :=
  let availableScrollWidth := availableScrollWidth (columnWidths state) in
  let scrollableColumns := scrollableColumns (columnWidths state) in
  let columnCount := Z.of_nat (length scrollableColumns) in
  if (availableScrollWidth =? 0) || (columnCount =? 0) then
    Some (set_columnSpan 0 0 0 state,
          {| endBufferCol := 0; endViewportCol := 0;
             firstBufferCol := 0; firstViewportCol := 0 |})
  else
    let lastIndex :=
      if geCount (firstIndex columnAnchor) columnCount ||
         geCount (lastIndex columnAnchor) columnCount
      then Some (columnCount - 1)
      else lastIndex columnAnchor in
    '(step, startIdy, totalWidth) ←
      match lastIndex with
      | Some l => Some (-1, l, 0)
      | None =>
          i ← firstIndex columnAnchor;
          o ← firstOffset columnAnchor;
          Some (1, i, o)
      end;
    '(state, endIdy, totalWidth) ←
      walkViewport (S (Z.to_nat columnCount)) columnCount availableScrollWidth step
                   state startIdy startIdy totalWidth;
    let firstViewportCol := Z.min startIdy endIdy in
    let firstBufferCol := Z.max (firstViewportCol - bufferColumnCount) 0 in
    state ← walkBuffer (Z.to_nat (firstViewportCol - firstBufferCol)) state firstBufferCol;
    let endViewportCol := Z.max startIdy endIdy + 1 in
    let endBufferCol := Z.min (endViewportCol + bufferColumnCount) columnCount in
    state ← walkBuffer (Z.to_nat (endBufferCol - endViewportCol)) state endViewportCol;
    firstOffset ←
      match lastIndex with
      | Some _ => Some (Z.min (availableScrollWidth - totalWidth) 0)
      | None => firstOffset columnAnchor
      end;
    Some (set_columnSpan firstViewportCol endViewportCol firstOffset state,
          {| endBufferCol := endBufferCol; endViewportCol := endViewportCol;
             firstBufferCol := firstBufferCol; firstViewportCol := firstViewportCol |}).

Definition addColumnToBuffer (columnIdx : Z) (columnBufferSet : gmap Z nat)
    (startRange endRange maxBufferSize : Z) : nat * gmap Z nat :=
  let columnPosition := SlotAllocator.getValuePosition columnBufferSet columnIdx in
  let '(columnPosition, columnBufferSet) :=
    match columnPosition with
    | None =>
        if maxBufferSize <=? Z.of_nat (SlotAllocator.getSize columnBufferSet)
        then SlotAllocator.replaceFurthestValuePosition
               columnBufferSet startRange (endRange - 1) columnIdx
        else (None, columnBufferSet)
    | Some _ => (columnPosition, columnBufferSet)
    end in
  match columnPosition with
  | None => SlotAllocator.getNewPositionForValue columnBufferSet columnIdx
  | Some position => (position, columnBufferSet)
  end.

(** [columns[columnPosition] = columnIdx] on a JavaScript array: a write past
    the end extends the array, leaving holes. *)
Definition arraySet (columns : list (option Z)) (columnPosition : nat) (columnIdx : Z)
    : list (option Z) :=
  if decide (columnPosition < length columns)%nat
  then <[columnPosition := Some columnIdx]> columns
  else columns ++ replicate (columnPosition - length columns) None ++ [Some columnIdx].

(** The [for] loop over the window: [n] iterations from [columnIdx]. *)
Fixpoint offsetsLoop (n : nat) (tree : gmap Z Z)
    (startIdx endIdx renderedColumnsCount : Z)
    (columnIdx runningOffset : Z)
    (columns : list (option Z)) (columnOffsets : gmap Z Z) (bufferSet : gmap Z nat)
    : list (option Z) * gmap Z Z * gmap Z nat :=
  match n with
  | O => (columns, columnOffsets, bufferSet)
  | S n' =>
      let columnOffsets := <[columnIdx := runningOffset]> columnOffsets in
      let runningOffset := runningOffset + OffsetStore.get tree columnIdx in
      let '(columnPosition, bufferSet) :=
        addColumnToBuffer columnIdx bufferSet startIdx endIdx renderedColumnsCount in
      let columns := arraySet columns columnPosition columnIdx in
      offsetsLoop n' tree startIdx endIdx renderedColumnsCount
                  (columnIdx + 1) runningOffset columns columnOffsets bufferSet
  end.

Definition windowOf (columnRange : ColumnRange) (viewportOnly : bool) : Z * Z :=
  (if viewportOnly then firstViewportCol columnRange else firstBufferCol columnRange,
   if viewportOnly then endViewportCol columnRange else endBufferCol columnRange).

Definition computeRenderedColumnOffsets (state : State) (columnRange : ColumnRange)
    (viewportOnly : bool) : State :=
  let columnBufferSet := columnBufferSet state in
  let columnOffsetIntervalTree := columnOffsetIntervalTree state in
  let renderedColumnsCount := endBufferCol columnRange - firstBufferCol columnRange in
  if renderedColumnsCount =? 0 then
    set_rendered [] ∅ columnBufferSet state
  else
    let '(startIdx, endIdx) := windowOf columnRange viewportOnly in
    let runningOffset := OffsetStore.sumUntil columnOffsetIntervalTree startIdx in
    let '(columns, columnOffsets, bufferSet) :=
      offsetsLoop (Z.to_nat (endIdx - startIdx)) columnOffsetIntervalTree
                  startIdx endIdx renderedColumnsCount
                  startIdx runningOffset [] ∅ columnBufferSet in
    set_rendered columns columnOffsets bufferSet state.

Definition computeRenderedColumns (state : State) (columnAnchor : ColumnAnchor)
    : option State :=
  let newState := state in
  '(newState, columnRange) ← calculateRenderedColumnRange newState columnAnchor;
  let newState := computeRenderedColumnOffsets newState columnRange (scrolling newState) in
  scrollX ←
    (if firstViewportCol columnRange =? endViewportCol columnRange
     then Some (scrollX state)
     else
       offset ← columnOffsets newState !! firstViewportCol columnRange;
       Some (offset - firstColumnOffset newState));
  let maxScrollX := maxScrollX (columnWidths state) in
  Some (set_scrollX (clamp scrollX 0 maxScrollX) newState).

(** ** Example inputs *)

Definition initialState (widths : list Z) (availableWidth maxScroll : Z) : State :=
  {| scrollX := 0; scrolling := false;
     firstColumnIndex := 0; endColumnIndex := 0; firstColumnOffset := 0;
     columnOffsets := ∅; columnsToRender := [];
     columnOffsetIntervalTree := ∅; columnBufferSet := ∅;
     columnLayout := {| availableScrollWidth := availableWidth;
                        scrollableColumns := Build_Column <$> widths;
                        maxScrollX := maxScroll |} |}.

Definition forwardAnchor (i o : Z) : ColumnAnchor :=
  {| firstIndex := Some i; firstOffset := Some o; lastIndex := None |}.

Definition backwardAnchor (l : Z) : ColumnAnchor :=
  {| firstIndex := None; firstOffset := None; lastIndex := Some l |}.

Definition fiveColumns : State := initialState [100; 100; 100; 100; 100] 250 250.


Definition threeColumns : State := initialState [100; 100; 300] 250 250.

(** ** Vocabulary of the properties *)

(** Sum of [f j] for [a <= j < b]. *)
Definition sumRange (f : Z -> Z) (a b : Z) : Z :=
  foldr (fun j acc => f j + acc) 0 (seqZ a (b - a)).

(** Measured width of column [i] of the oracle's column list. *)
Definition widthAt (columns : list Column) (i : Z) : Z :=
  if i <? 0 then 0 else default 0 (width <$> columns !! Z.to_nat i).

(** Total measured width of the columns [a <= j < b]. *)
Definition spanWidth (columns : list Column) (a b : Z) : Z :=
  sumRange (widthAt columns) a b.

Definition columnCountOf (state : State) : Z :=
  Z.of_nat (length (scrollableColumns (columnWidths state))).

(** [lastIndex] after the bounds clamp of the anchor. *)
Definition clampedLastIndex (state : State) (columnAnchor : ColumnAnchor) : option Z :=
  if geCount (firstIndex columnAnchor) (columnCountOf state) ||
     geCount (lastIndex columnAnchor) (columnCountOf state)
  then Some (columnCountOf state - 1)
  else lastIndex columnAnchor.

(** The anchor is backward or forward, and the index that drives the walk is
    non-negative once the clamp has been applied. *)
Definition anchorWellFormed (state : State) (columnAnchor : ColumnAnchor) : Prop :=
  match clampedLastIndex state columnAnchor with
  | Some l => 0 <= l
  | None =>
      match firstIndex columnAnchor, firstOffset columnAnchor with
      | Some i, Some _ => 0 <= i
      | _, _ => False
      end
  end.

(** The index the viewport walk starts from: [lastIndex] after the clamp
    when it is defined, [firstIndex] otherwise. *)
Definition drivingIndex (state : State) (columnAnchor : ColumnAnchor) : option Z :=
  match clampedLastIndex state columnAnchor with
  | Some l => Some l
  | None => firstIndex columnAnchor
  end.

(** The viewport walk makes at least one step: the accumulated width it
    starts with is below the available width. *)
Definition walkStarts (state : State) (columnAnchor : ColumnAnchor) : Prop :=
  match clampedLastIndex state columnAnchor with
  | Some _ => 0 < availableScrollWidth (columnWidths state)
  | None =>
      match firstOffset columnAnchor with
      | Some o => o < availableScrollWidth (columnWidths state)
      | None => False
      end
  end.

(** The input has no column to lay out. *)
Definition degenerate (state : State) : Prop :=
  availableScrollWidth (columnWidths state) = 0 \/ columnCountOf state = 0.

(** The reducer wrote nothing but the Offset Store. *)
Definition sameButTree (s s' : State) : Prop :=
  s' = set_columnOffsetIntervalTree (columnOffsetIntervalTree s') s.

(** Number of slots of [columnsToRender] that hold a column. *)
Fixpoint filledSlots (columns : list (option Z)) : nat :=
  match columns with
  | [] => 0
  | Some _ :: rest => S (filledSlots rest)
  | None :: rest => filledSlots rest
  end.

(** ** Sums over index ranges *)

Lemma sumRange_empty f a b : b <= a -> sumRange f a b = 0.
Proof.
  intros H. unfold sumRange.
  replace (seqZ a (b - a)) with (@nil Z); [done|].
  symmetry. apply seqZ_nil. lia.
Qed.

Lemma sumRange_first f a b : a < b -> sumRange f a b = f a + sumRange f (a + 1) b.
Proof.
  intros H. unfold sumRange.
  rewrite (seqZ_cons a (b - a)) by lia. simpl.
  do 2 f_equal. f_equal; lia.
Qed.

Lemma sumRange_last f a b : a <= b -> sumRange f a (b + 1) = sumRange f a b + f b.
Proof.
  intros H. unfold sumRange.
  replace (b + 1 - a) with ((b - a) + 1) by lia.
  rewrite seqZ_app by lia. rewrite foldr_app.
  replace (a + (b - a)) with b by lia.
  change (seqZ b 1) with [b]. simpl.
  generalize (seqZ a (b - a)). intros l.
  induction l as [|x l IH]; simpl; lia.
Qed.

Lemma sumRange_split f a b c :
  a <= b -> b <= c -> sumRange f a c = sumRange f a b + sumRange f b c.
Proof.
  intros Hab Hbc. unfold sumRange.
  replace (c - a) with ((b - a) + (c - b)) by lia.
  rewrite seqZ_app by lia. rewrite foldr_app.
  replace (a + (b - a)) with b by lia.
  generalize (foldr (fun j acc => f j + acc) 0 (seqZ b (c - b))). intros z.
  generalize (seqZ a (b - a)). intros l.
  induction l as [|x l IH]; simpl; lia.
Qed.

Lemma sumRange_nonneg f a b :
  (forall j, a <= j < b -> 0 <= f j) -> 0 <= sumRange f a b.
Proof.
  intros Hf.
  destruct (decide (b <= a)) as [Hle|Hlt]; [rewrite sumRange_empty; lia|].
  assert (Hn : exists n : nat, b = a + Z.of_nat n) by (exists (Z.to_nat (b - a)); lia).
  destruct Hn as [n ->]. clear Hlt.
  induction n as [|n IH]; [rewrite sumRange_empty; lia|].
  replace (a + Z.of_nat (S n)) with (a + Z.of_nat n + 1) by lia.
  rewrite sumRange_last by lia.
  specialize (Hf (a + Z.of_nat n)) as Hlast.
  assert (0 <= sumRange f a (a + Z.of_nat n)) by (apply IH; intros; apply Hf; lia).
  lia.
Qed.

Lemma sumRange_mono f a b c :
  a <= b -> b <= c -> (forall j, b <= j < c -> 0 <= f j) ->
  sumRange f a b <= sumRange f a c.
Proof.
  intros Hab Hbc Hf. rewrite (sumRange_split f a b c) by lia.
  pose proof (sumRange_nonneg f b c Hf). lia.
Qed.

Lemma sumUntil_sumRange tree i :
  OffsetStore.sumUntil tree i = sumRange (OffsetStore.get tree) 0 i.
Proof. unfold OffsetStore.sumUntil, sumRange. by rewrite Z.sub_0_r. Qed.

(** ** Measuring a column *)

Lemma sameButTree_refl s : sameButTree s s.
Proof. by destruct s. Qed.

Lemma sameButTree_trans s1 s2 s3 :
  sameButTree s1 s2 -> sameButTree s2 s3 -> sameButTree s1 s3.
Proof. unfold sameButTree. intros H12 H23. rewrite H23 at 1. rewrite H12. done. Qed.

Lemma sameButTree_layout s s' : sameButTree s s' -> columnLayout s' = columnLayout s.
Proof. intros ->. done. Qed.

Lemma updateColumnWidth_inside state columnIdx :
  0 <= columnIdx < columnCountOf state ->
  updateColumnWidth state columnIdx =
    Some (set_columnOffsetIntervalTree
            (OffsetStore.set (columnOffsetIntervalTree state) columnIdx
               (widthAt (scrollableColumns (columnWidths state)) columnIdx))
            state,
          widthAt (scrollableColumns (columnWidths state)) columnIdx).
Proof.
  unfold columnCountOf, updateColumnWidth, widthAt. intros [H0 H1].
  destruct (columnIdx <? 0) eqn:E; [lia|].
  destruct (lookup_lt_is_Some_2 (scrollableColumns (columnWidths state))
              (Z.to_nat columnIdx)) as [c Hc]; [lia|].
  rewrite Hc. done.
Qed.

(** ** The viewport walk *)

Section Walk.

Variable layout : ColumnWidths.

Let columnCount := Z.of_nat (length (scrollableColumns layout)).
Let available := availableScrollWidth layout.
Let W := widthAt (scrollableColumns layout).

Lemma walkViewport_stop fuel step state columnIdx endIdy totalWidth :
  columnIdx < 0 \/ columnCount <= columnIdx \/ available <= totalWidth ->
  walkViewport (S fuel) columnCount available step state columnIdx endIdy totalWidth
  = Some (state, endIdy, totalWidth).
Proof.
  intros H. simpl.
  destruct ((columnIdx <? columnCount) && (0 <=? columnIdx) &&
            (totalWidth <? available)) eqn:E; [|done].
  apply andb_prop in E as [E E3]. apply andb_prop in E as [E1 E2]. lia.
Qed.

Lemma walkViewport_step fuel step state columnIdx endIdy totalWidth :
  columnLayout state = layout ->
  0 <= columnIdx < columnCount -> totalWidth < available ->
  exists state',
    sameButTree state state' /\
    walkViewport (S fuel) columnCount available step state columnIdx endIdy totalWidth
    = walkViewport fuel columnCount available step state'
        (columnIdx + step) columnIdx (totalWidth + W columnIdx).
Proof.
  intros HL Hidx Ht. simpl.
  destruct ((columnIdx <? columnCount) && (0 <=? columnIdx) &&
            (totalWidth <? available)) eqn:E.
  2:{ apply andb_false_iff in E as [E|E]; [apply andb_false_iff in E as [E|E]|]; lia. }
  rewrite updateColumnWidth_inside.
  2:{ unfold columnCountOf, columnWidths. rewrite HL. done. }
  unfold columnWidths. rewrite HL. simpl.
  eexists. split; [|reflexivity]. done.
Qed.

(** Forward walk: it ends at some index [stop], having added the widths of
    the columns from the start up to [stop]; it stopped because the columns
    ran out or the width was reached, and not earlier. *)
Lemma walkViewport_forward fuel : forall state columnIdx endIdy totalWidth,
  columnLayout state = layout ->
  0 <= columnIdx <= columnCount ->
  (Z.to_nat (columnCount - columnIdx) < fuel)%nat ->
  exists state' stop,
    walkViewport fuel columnCount available 1 state columnIdx endIdy totalWidth
    = Some (state', (if stop =? columnIdx then endIdy else stop - 1),
            totalWidth + sumRange W columnIdx stop) /\
    sameButTree state state' /\
    columnIdx <= stop <= columnCount /\
    (stop = columnCount \/ available <= totalWidth + sumRange W columnIdx stop) /\
    (forall j, columnIdx <= j < stop -> totalWidth + sumRange W columnIdx j < available).
Proof.
  induction fuel as [|fuel IH]; intros state columnIdx endIdy totalWidth HL Hidx Hfuel; [lia|].
  destruct (decide (columnIdx < columnCount /\ totalWidth < available)) as [[Hc Ht]|Hstop].
  - destruct (walkViewport_step fuel 1 state columnIdx endIdy totalWidth HL)
      as (state1 & Hsame & ->); [lia|lia|].
    destruct (IH state1 (columnIdx + 1) columnIdx (totalWidth + W columnIdx))
      as (state' & stop & Hrun & Hsame' & Hstop & Hexit & Hcont).
    + rewrite (sameButTree_layout _ _ Hsame). done.
    + lia.
    + lia.
    + exists state', stop. rewrite Hrun.
      assert (Hsum : forall j, columnIdx + 1 <= j ->
                 W columnIdx + sumRange W (columnIdx + 1) j = sumRange W columnIdx j).
      { intros j Hj. rewrite (sumRange_first W columnIdx j) by lia. done. }
      split; [|split; [|split; [|split]]].
      * rewrite <- Z.add_assoc, (Hsum stop) by lia.
        destruct (stop =? columnIdx + 1) eqn:E1; destruct (stop =? columnIdx) eqn:E2;
          try lia; [|reflexivity].
        replace (stop - 1) with columnIdx by lia. reflexivity.
      * eapply sameButTree_trans; eauto.
      * lia.
      * rewrite <- Hsum by lia. destruct Hexit; [by left|right; lia].
      * intros j Hj. destruct (decide (j = columnIdx)) as [->|Hne].
        -- rewrite sumRange_empty by lia. lia.
        -- rewrite <- Hsum by lia. specialize (Hcont j). lia.
  - exists state, columnIdx. rewrite walkViewport_stop by lia.
    rewrite Z.eqb_refl, sumRange_empty by lia. rewrite Z.add_0_r.
    split; [done|]. split; [apply sameButTree_refl|]. split; [lia|].
    split; [lia|]. intros j Hj. lia.
Qed.

(** Backward walk from [columnIdx] down to [stop], exclusive. *)
Lemma walkViewport_backward fuel : forall state columnIdx endIdy totalWidth,
  columnLayout state = layout ->
  -1 <= columnIdx < columnCount ->
  (Z.to_nat (columnIdx + 1) < fuel)%nat ->
  exists state' stop,
    walkViewport fuel columnCount available (-1) state columnIdx endIdy totalWidth
    = Some (state', (if stop =? columnIdx then endIdy else stop + 1),
            totalWidth + sumRange W (stop + 1) (columnIdx + 1)) /\
    sameButTree state state' /\
    -1 <= stop <= columnIdx /\
    (stop = -1 \/ available <= totalWidth + sumRange W (stop + 1) (columnIdx + 1)) /\
    (forall j, stop < j <= columnIdx ->
               totalWidth + sumRange W (j + 1) (columnIdx + 1) < available).
Proof.
  induction fuel as [|fuel IH]; intros state columnIdx endIdy totalWidth HL Hidx Hfuel; [lia|].
  destruct (decide (0 <= columnIdx /\ totalWidth < available)) as [[Hc Ht]|Hstop].
  - destruct (walkViewport_step fuel (-1) state columnIdx endIdy totalWidth HL)
      as (state1 & Hsame & ->); [lia|lia|].
    destruct (IH state1 (columnIdx + -1) columnIdx (totalWidth + W columnIdx))
      as (state' & stop & Hrun & Hsame' & Hstop & Hexit & Hcont).
    + rewrite (sameButTree_layout _ _ Hsame). done.
    + lia.
    + lia.
    + exists state', stop. rewrite Hrun.
      assert (Hsum : forall j, j <= columnIdx ->
                 W columnIdx + sumRange W j (columnIdx + -1 + 1) = sumRange W j (columnIdx + 1)).
      { intros j Hj. replace (columnIdx + -1 + 1) with columnIdx by lia.
        rewrite (sumRange_last W j columnIdx) by lia. lia. }
      split; [|split; [|split; [|split]]].
      * rewrite <- Z.add_assoc, (Hsum (stop + 1)) by lia.
        destruct (stop =? columnIdx + -1) eqn:E1; destruct (stop =? columnIdx) eqn:E2;
          try lia; [|reflexivity].
        replace (stop + 1) with columnIdx by lia. reflexivity.
      * eapply sameButTree_trans; eauto.
      * lia.
      * rewrite <- Hsum by lia. destruct Hexit; [by left|right; lia].
      * intros j Hj. destruct (decide (j = columnIdx)) as [->|Hne].
        -- rewrite sumRange_empty by lia. lia.
        -- rewrite <- Hsum by lia. specialize (Hcont j). lia.
  - exists state, columnIdx. rewrite walkViewport_stop by lia.
    rewrite Z.eqb_refl, sumRange_empty by lia. rewrite Z.add_0_r.
    split; [done|]. split; [apply sameButTree_refl|]. split; [lia|].
    split; [lia|]. intros j Hj. lia.
Qed.

End Walk.

Arguments walkViewport : simpl never.
Arguments windowOf : simpl never.

(** ** The range calculator, case by case *)

Lemma degenerate_test state :
  (availableScrollWidth (columnWidths state) =? 0) || (columnCountOf state =? 0) = true
  <-> degenerate state.
Proof. unfold degenerate. rewrite orb_true_iff, !Z.eqb_eq. done. Qed.

Lemma calculateRenderedColumnRange_degenerate state columnAnchor :
  degenerate state ->
  calculateRenderedColumnRange state columnAnchor =
    Some (set_columnSpan 0 0 0 state,
          {| endBufferCol := 0; endViewportCol := 0;
             firstBufferCol := 0; firstViewportCol := 0 |}).
Proof.
  intros H%degenerate_test. unfold calculateRenderedColumnRange.
  fold (columnCountOf state). rewrite H. done.
Qed.

Lemma clampedLastIndex_below state columnAnchor l :
  clampedLastIndex state columnAnchor = Some l -> 0 < columnCountOf state ->
  l < columnCountOf state.
Proof.
  unfold clampedLastIndex, geCount. intros H Hc.
  destruct (firstIndex columnAnchor) as [i|], (lastIndex columnAnchor) as [k|];
    simpl in H;
    repeat match type of H with
           | context [?a <=? ?b] => destruct (Z.leb_spec a b); simpl in H
           end;
    inversion H; lia.
Qed.

Lemma clampedLastIndex_forward state columnAnchor i :
  clampedLastIndex state columnAnchor = None -> firstIndex columnAnchor = Some i ->
  i < columnCountOf state.
Proof.
  unfold clampedLastIndex, geCount. intros H Hi. rewrite Hi in H.
  destruct (Z.leb_spec (columnCountOf state) i); simpl in H; [done|lia].
Qed.

(** Backward anchor: the walk goes from [l] down to [stop], exclusive. *)
Lemma calculateRenderedColumnRange_backward state columnAnchor l :
  ~ degenerate state ->
  clampedLastIndex state columnAnchor = Some l -> 0 <= l ->
  let columns := scrollableColumns (columnWidths state) in
  let available := availableScrollWidth (columnWidths state) in
  exists state' stop,
    let total := spanWidth columns (stop + 1) (l + 1) in
    let first := Z.min l (if stop =? l then l else stop + 1) in
    calculateRenderedColumnRange state columnAnchor =
      Some (set_columnSpan first (l + 1) (Z.min (available - total) 0) state',
            {| endBufferCol := l + 1; endViewportCol := l + 1;
               firstBufferCol := first; firstViewportCol := first |}) /\
    sameButTree state state' /\
    -1 <= stop <= l /\
    (stop = -1 \/ available <= total) /\
    (forall j, stop < j <= l -> spanWidth columns (j + 1) (l + 1) < available) /\
    walkViewport (S (Z.to_nat (columnCountOf state))) (columnCountOf state) available (-1)
                 state l l 0
      = Some (state', (if stop =? l then l else stop + 1), total).
Proof.
  intros Hnd Hl Hl0 columns available.
  assert (Hcount : 0 < columnCountOf state).
  { unfold degenerate in Hnd. unfold columnCountOf in *. lia. }
  pose proof (clampedLastIndex_below _ _ _ Hl Hcount) as Hlt.
  destruct (walkViewport_backward (columnLayout state) (S (Z.to_nat (columnCountOf state)))
              state l l 0 eq_refl) as (state' & stop & Hrun & Hsame & Hstop & Hexit & Hcont).
  { unfold columnCountOf, columnWidths in Hlt. lia. }
  { lia. }
  exists state', stop. simpl.
  split; [|split; [done|split; [done|split; [|split]]]].
  - unfold calculateRenderedColumnRange.
    fold (columnCountOf state).
    destruct ((availableScrollWidth (columnWidths state) =? 0) || (columnCountOf state =? 0))
      eqn:E; [apply degenerate_test in E; done|].
    unfold clampedLastIndex in Hl. rewrite Hl. simpl.
    unfold columnCountOf, columnWidths in *. rewrite Hrun. simpl.
    unfold bufferColumnCount.
    set (first := Z.min l (if stop =? l then l else stop + 1)).
    replace (Z.to_nat (first - Z.max (first - 0) 0)) with 0%nat by lia.
    simpl.
    replace (Z.to_nat (Z.min (Z.max l (if stop =? l then l else stop + 1) + 1 + 0)
                             (Z.of_nat (length (scrollableColumns (columnLayout state))))
                       - (Z.max l (if stop =? l then l else stop + 1) + 1)))
      with 0%nat by lia.
    simpl.
    assert (Hmax : Z.max l (if stop =? l then l else stop + 1) = l)
      by (destruct (Z.eqb_spec stop l); lia).
    rewrite Hmax.
    replace (Z.min (l + 1 + 0) (Z.of_nat (length (scrollableColumns (columnLayout state)))))
      with (l + 1) by lia.
    replace (Z.max (first - 0) 0) with first by (subst first; destruct (Z.eqb_spec stop l); lia).
    done.
  - unfold spanWidth, available, columns, columnWidths. destruct Hexit; [by left|right; lia].
  - intros j Hj. specialize (Hcont j Hj). unfold spanWidth, available, columns, columnWidths. lia.
  - unfold spanWidth, available, columns, columnCountOf, columnWidths in *. rewrite Hrun. done.
Qed.

(** Forward anchor: the walk goes from [i] up to [stop], exclusive. *)
Lemma calculateRenderedColumnRange_forward state columnAnchor i o :
  ~ degenerate state ->
  clampedLastIndex state columnAnchor = None ->
  firstIndex columnAnchor = Some i -> firstOffset columnAnchor = Some o -> 0 <= i ->
  let columns := scrollableColumns (columnWidths state) in
  let available := availableScrollWidth (columnWidths state) in
  exists state' stop,
    let last := Z.max i (if stop =? i then i else stop - 1) in
    calculateRenderedColumnRange state columnAnchor =
      Some (set_columnSpan i (last + 1) o state',
            {| endBufferCol := last + 1; endViewportCol := last + 1;
               firstBufferCol := i; firstViewportCol := i |}) /\
    sameButTree state state' /\
    i <= stop <= columnCountOf state /\
    (stop = columnCountOf state \/ available <= o + spanWidth columns i stop) /\
    (forall j, i <= j < stop -> o + spanWidth columns i j < available).
Proof.
  intros Hnd Hl Hi Ho Hi0 columns available.
  pose proof (clampedLastIndex_forward _ _ _ Hl Hi) as Hlt.
  destruct (walkViewport_forward (columnLayout state) (S (Z.to_nat (columnCountOf state)))
              state i i o eq_refl) as (state' & stop & Hrun & Hsame & Hstop & Hexit & Hcont).
  { unfold columnCountOf, columnWidths in Hlt. lia. }
  { unfold columnCountOf, columnWidths in *. lia. }
  exists state', stop. simpl.
  split; [|split; [done|split; [done|split; [done|done]]]].
  unfold calculateRenderedColumnRange.
  fold (columnCountOf state).
  destruct ((availableScrollWidth (columnWidths state) =? 0) || (columnCountOf state =? 0))
    eqn:E; [apply degenerate_test in E; done|].
  unfold clampedLastIndex in Hl. rewrite Hl, Hi, Ho. simpl.
  unfold columnCountOf, columnWidths in *. rewrite Hrun. simpl.
  unfold bufferColumnCount.
  assert (Hmin : Z.min i (if stop =? i then i else stop - 1) = i)
    by (destruct (Z.eqb_spec stop i); lia).
  rewrite Hmin.
  replace (Z.to_nat (i - Z.max (i - 0) 0)) with 0%nat by lia.
  simpl.
  set (last := Z.max i (if stop =? i then i else stop - 1)).
  replace (Z.to_nat (Z.min (last + 1 + 0)
                           (Z.of_nat (length (scrollableColumns (columnLayout state))))
                     - (last + 1)))
    with 0%nat by lia.
  simpl.
  replace (Z.min (last + 1 + 0) (Z.of_nat (length (scrollableColumns (columnLayout state)))))
    with (last + 1) by (subst last; destruct (Z.eqb_spec stop i); lia).
  replace (Z.max (i - 0) 0) with i by lia.
  done.
Qed.

(** Outside the degenerate case the anchor decides whether there is a
    result. *)
Lemma calculateRenderedColumnRange_total state columnAnchor :
  degenerate state \/ anchorWellFormed state columnAnchor ->
  is_Some (calculateRenderedColumnRange state columnAnchor).
Proof.
  intros [Hd|Hwf].
  { rewrite calculateRenderedColumnRange_degenerate by done. eauto. }
  destruct (decide (degenerate state)) as [Hd|Hnd].
  { rewrite calculateRenderedColumnRange_degenerate by done. eauto. }
  unfold anchorWellFormed in Hwf.
  destruct (clampedLastIndex state columnAnchor) as [l|] eqn:Hl.
  - destruct (calculateRenderedColumnRange_backward state columnAnchor l Hnd Hl Hwf)
      as (state' & stop & -> & _). eauto.
  - destruct (firstIndex columnAnchor) as [i|] eqn:Hi; [|done].
    destruct (firstOffset columnAnchor) as [o|] eqn:Ho; [|done].
    destruct (calculateRenderedColumnRange_forward state columnAnchor i o Hnd Hl Hi Ho Hwf)
      as (state' & stop & -> & _). eauto.
Qed.

(** ** The Slot Allocator *)

Lemma pickFurthest_fold lowValue highValue (entries : list (Z * nat)) entry :
  foldr (SlotAllocator.pickFurthest lowValue highValue) None entries = Some entry ->
  entry ∈ entries /\ (entry.1 < lowValue \/ highValue < entry.1).
Proof.
  induction entries as [|x entries IH]; simpl; [done|].
  unfold SlotAllocator.pickFurthest at 1.
  destruct (Z.leb_spec (SlotAllocator.distanceOutside lowValue highValue x.1) 0) as [Hd|Hd].
  { intros H. destruct (IH H) as [Hin Hout]. split; [by right|done]. }
  assert (Hx : x.1 < lowValue \/ highValue < x.1).
  { unfold SlotAllocator.distanceOutside in Hd.
    destruct (Z.ltb_spec x.1 lowValue); [lia|].
    destruct (Z.ltb_spec highValue x.1); lia. }
  destruct (foldr (SlotAllocator.pickFurthest lowValue highValue) None entries) as [b|].
  - destruct (SlotAllocator.further lowValue highValue b x).
    + intros [= <-]. split; [by left|done].
    + intros H. destruct (IH H) as [Hin Hout]. split; [by right|done].
  - intros [= <-]. split; [by left|done].
Qed.

Lemma furthest_Some lowValue highValue (set : gmap Z nat) value position :
  SlotAllocator.furthest lowValue highValue set = Some (value, position) ->
  set !! value = Some position /\ (value < lowValue \/ highValue < value).
Proof.
  unfold SlotAllocator.furthest. intros [Hin Hout]%pickFurthest_fold.
  split; [by apply elem_of_map_to_list|done].
Qed.

Lemma furthest_None lowValue highValue (set : gmap Z nat) :
  (forall value position, set !! value = Some position -> lowValue <= value <= highValue) ->
  SlotAllocator.furthest lowValue highValue set = None.
Proof.
  unfold SlotAllocator.furthest. intros Hin.
  assert (H : forall entry, entry ∈ map_to_list set -> lowValue <= entry.1 <= highValue).
  { intros [v p] Hvp. apply elem_of_map_to_list in Hvp. simpl. eauto. }
  clear Hin. induction (map_to_list set) as [|x entries IH]; simpl; [done|].
  rewrite IH by (intros e He; apply H; by right).
  unfold SlotAllocator.pickFurthest, SlotAllocator.distanceOutside.
  specialize (H x (list_elem_of_here _ _)).
  destruct (Z.ltb_spec x.1 lowValue); [lia|].
  destruct (Z.ltb_spec highValue x.1); [lia|]. done.
Qed.

Lemma wf_empty : SlotAllocator.wf ∅.
Proof. split; intros *; rewrite lookup_empty; done. Qed.

Lemma wf_getNewPositionForValue (set : gmap Z nat) value :
  SlotAllocator.wf set -> set !! value = None ->
  SlotAllocator.wf (SlotAllocator.getNewPositionForValue set value).2.
Proof.
  intros [Hbound Hinj] Hnew. unfold SlotAllocator.getNewPositionForValue,
    SlotAllocator.getSize. simpl.
  split.
  - intros v p. rewrite map_size_insert_None by done.
    rewrite lookup_insert. case_decide; [intros [= <-]; lia|].
    intros Hv. apply Hbound in Hv. lia.
  - intros v1 v2 p. rewrite !lookup_insert.
    repeat case_decide; subst; try done.
    + intros [= <-] Hv. apply Hbound in Hv. lia.
    + intros Hv [= <-]. apply Hbound in Hv. lia.
    + apply Hinj.
Qed.

Lemma wf_replace (set : gmap Z nat) victim position value :
  SlotAllocator.wf set -> set !! value = None -> set !! victim = Some position ->
  SlotAllocator.wf (<[value := position]> (delete victim set)) /\
  size (<[value := position]> (delete victim set)) = size set.
Proof.
  intros [Hbound Hinj] Hnew Hvictim.
  assert (Hne : victim <> value) by congruence.
  assert (Hsize : size (<[value := position]> (delete victim set)) = size set).
  { rewrite map_size_insert_None by (rewrite lookup_delete_ne; done).
    rewrite map_size_delete_Some by done.
    apply Hbound in Hvictim. lia. }
  split; [|done]. split.
  - intros v p. rewrite Hsize, lookup_insert. case_decide.
    + intros [= <-]. eauto.
    + rewrite lookup_delete. case_decide; [done|]. apply Hbound.
  - intros v1 v2 p. rewrite !lookup_insert, !lookup_delete.
    repeat case_decide; subst; try done.
    + intros [= <-] Hv. by apply (Hinj _ _ _ Hv) in Hvictim.
    + intros Hv [= <-]. by apply (Hinj _ _ _ Hv) in Hvictim.
    + apply Hinj.
Qed.

(** What a slot request does to a well-formed allocator: the column ends up
    at the returned slot, every tracked column inside the window keeps its
    slot, and the allocator does not shrink. *)
Lemma addColumnToBuffer_spec columnIdx (bufferSet : gmap Z nat)
    startRange endRange maxBufferSize :
  SlotAllocator.wf bufferSet ->
  let result := addColumnToBuffer columnIdx bufferSet startRange endRange maxBufferSize in
  SlotAllocator.wf result.2 /\
  result.2 !! columnIdx = Some result.1 /\
  (forall v q, startRange <= v < endRange -> bufferSet !! v = Some q ->
               result.2 !! v = Some q) /\
  (size bufferSet <= size result.2 <= S (size bufferSet))%nat.
Proof.
  intros Hwf. unfold addColumnToBuffer, SlotAllocator.getValuePosition.
  destruct (bufferSet !! columnIdx) as [p|] eqn:Hp; simpl.
  { split; [done|]. split; [done|]. split; [done|lia]. }
  assert (Hfresh :
    let result := SlotAllocator.getNewPositionForValue bufferSet columnIdx in
    SlotAllocator.wf result.2 /\ result.2 !! columnIdx = Some result.1 /\
    (forall v q, startRange <= v < endRange -> bufferSet !! v = Some q ->
                 result.2 !! v = Some q) /\
    (size bufferSet <= size result.2 <= S (size bufferSet))%nat).
  { split; [by apply wf_getNewPositionForValue|]. simpl.
    split; [by rewrite lookup_insert_eq|]. split.
    - intros v q _ Hv. rewrite lookup_insert_ne; [done|congruence].
    - rewrite map_size_insert_None by done. unfold SlotAllocator.getSize. lia. }
  destruct (maxBufferSize <=? Z.of_nat (SlotAllocator.getSize bufferSet)); [|exact Hfresh].
  unfold SlotAllocator.replaceFurthestValuePosition.
  destruct (SlotAllocator.furthest startRange (endRange - 1) bufferSet)
    as [[victim position]|] eqn:Hf; [|exact Hfresh].
  apply furthest_Some in Hf as [Hvictim Hout]. simpl.
  destruct (wf_replace bufferSet victim position columnIdx Hwf Hp Hvictim) as [Hwf' Hsize].
  split; [done|]. split; [by rewrite lookup_insert_eq|]. split; [|lia].
  intros v q Hv Hq. rewrite lookup_insert_ne by congruence.
  rewrite lookup_delete_ne by lia. done.
Qed.

(** ** Writing into [columnsToRender] *)

Lemma length_arraySet columns position columnIdx :
  length (arraySet columns position columnIdx) = Nat.max (length columns) (S position).
Proof.
  unfold arraySet. case_decide.
  - rewrite length_insert. lia.
  - rewrite !length_app, length_replicate. simpl. lia.
Qed.

Lemma lookup_arraySet_eq columns position columnIdx :
  arraySet columns position columnIdx !! position = Some (Some columnIdx).
Proof.
  unfold arraySet. case_decide.
  - by apply list_lookup_insert_eq.
  - rewrite lookup_app_r by lia. rewrite lookup_app_r by (rewrite length_replicate; lia).
    rewrite length_replicate.
    replace (position - length columns - (position - length columns))%nat with 0%nat by lia.
    done.
Qed.

Lemma lookup_arraySet_ne columns position columnIdx other x :
  position <> other -> columns !! other = Some x ->
  arraySet columns position columnIdx !! other = Some x.
Proof.
  intros Hne Hx. unfold arraySet. case_decide.
  - by rewrite list_lookup_insert_ne.
  - rewrite lookup_app_l; [done|]. by apply lookup_lt_Some in Hx.
Qed.

Lemma filledSlots_app l1 l2 : filledSlots (l1 ++ l2) = (filledSlots l1 + filledSlots l2)%nat.
Proof. induction l1 as [|[x|] l1 IH]; simpl; lia. Qed.

Lemma filledSlots_holes n : filledSlots (replicate n None) = 0%nat.
Proof. induction n; simpl; done. Qed.

Lemma filledSlots_insert columns : forall position columnIdx,
  (filledSlots (<[position := Some columnIdx]> columns) <= S (filledSlots columns))%nat.
Proof.
  induction columns as [|[x|] columns IH]; intros [|position] columnIdx; simpl;
    try lia; specialize (IH position columnIdx); lia.
Qed.

Lemma filledSlots_arraySet columns position columnIdx :
  (filledSlots (arraySet columns position columnIdx) <= S (filledSlots columns))%nat.
Proof.
  unfold arraySet. case_decide.
  - apply filledSlots_insert.
  - rewrite !filledSlots_app, filledSlots_holes. simpl. lia.
Qed.

(** ** The offset and slot loop *)

Section OffsetsLoop.

Variable tree : gmap Z Z.
Variables startIdx endIdx renderedColumnsCount : Z.

Let loop n := offsetsLoop n tree startIdx endIdx renderedColumnsCount.

Lemma offsetsLoop_S n columnIdx runningOffset columns offsets bufferSet :
  loop (S n) columnIdx runningOffset columns offsets bufferSet =
  let added := addColumnToBuffer columnIdx bufferSet startIdx endIdx renderedColumnsCount in
  loop n (columnIdx + 1) (runningOffset + OffsetStore.get tree columnIdx)
       (arraySet columns added.1 columnIdx) (<[columnIdx := runningOffset]> offsets) added.2.
Proof.
  unfold loop. simpl.
  destruct (addColumnToBuffer columnIdx bufferSet startIdx endIdx renderedColumnsCount).
  done.
Qed.

(** Offsets: column [i] of the walked span gets the start offset plus the
    stored widths of the columns before it; other keys are untouched. *)
Lemma offsetsLoop_offsets n : forall columnIdx runningOffset columns offsets bufferSet,
  let result := loop n columnIdx runningOffset columns offsets bufferSet in
  (forall i, columnIdx <= i < columnIdx + Z.of_nat n ->
     result.1.2 !! i = Some (runningOffset + sumRange (OffsetStore.get tree) columnIdx i)) /\
  (forall i, ~ (columnIdx <= i < columnIdx + Z.of_nat n) ->
     result.1.2 !! i = offsets !! i).
Proof.
  induction n as [|n IH]; intros columnIdx runningOffset columns offsets bufferSet.
  { simpl. split; [lia|done]. }
  simpl. rewrite offsetsLoop_S. simpl.
  set (added := addColumnToBuffer columnIdx bufferSet startIdx endIdx renderedColumnsCount).
  destruct (IH (columnIdx + 1) (runningOffset + OffsetStore.get tree columnIdx)
              (arraySet columns added.1 columnIdx) (<[columnIdx := runningOffset]> offsets)
              added.2) as [Hin Hout].
  split.
  - intros i Hi. destruct (decide (i = columnIdx)) as [->|Hne].
    + rewrite Hout by lia. rewrite lookup_insert_eq, sumRange_empty by lia.
      f_equal. lia.
    + rewrite Hin by lia. rewrite (sumRange_first _ columnIdx i) by lia.
      f_equal. lia.
  - intros i Hi. rewrite Hout by lia. rewrite lookup_insert_ne by lia. done.
Qed.

(** Slots: the allocator stays well-formed; a tracked column inside the
    window keeps its slot; a slot written for a window column that the rest
    of the loop does not visit keeps its content; every visited column sits
    in [columnsToRender] at its slot. *)
Lemma offsetsLoop_slots n : forall columnIdx runningOffset columns offsets bufferSet,
  SlotAllocator.wf bufferSet ->
  startIdx <= columnIdx -> (n = 0%nat \/ columnIdx + Z.of_nat n <= endIdx) ->
  let result := loop n columnIdx runningOffset columns offsets bufferSet in
  SlotAllocator.wf result.2 /\
  (forall v q, startIdx <= v < endIdx -> bufferSet !! v = Some q -> result.2 !! v = Some q) /\
  (forall v q, startIdx <= v < endIdx -> ~ (columnIdx <= v < columnIdx + Z.of_nat n) ->
     bufferSet !! v = Some q -> columns !! q = Some (Some v) ->
     result.1.1 !! q = Some (Some v)) /\
  (forall c, columnIdx <= c < columnIdx + Z.of_nat n ->
     exists q, result.2 !! c = Some q /\ result.1.1 !! q = Some (Some c)).
Proof.
  induction n as [|n IH]; intros columnIdx runningOffset columns offsets bufferSet Hwf Hlo Hhi.
  { simpl. split; [done|]. split; [done|]. split; [done|lia]. }
  simpl. rewrite offsetsLoop_S. simpl.
  pose proof (addColumnToBuffer_spec columnIdx bufferSet startIdx endIdx
                renderedColumnsCount Hwf) as Hadd.
  set (added := addColumnToBuffer columnIdx bufferSet startIdx endIdx renderedColumnsCount)
    in *.
  simpl in Hadd. destruct Hadd as (Hwf1 & Hself & Hkeep1 & _).
  destruct (IH (columnIdx + 1) (runningOffset + OffsetStore.get tree columnIdx)
              (arraySet columns added.1 columnIdx) (<[columnIdx := runningOffset]> offsets)
              added.2 Hwf1) as (Hwf' & Hkeep & Hcontent & Hvisited); [lia|lia|].
  split; [done|]. split; [|split].
  - intros v q Hv Hq. apply Hkeep; [done|]. by apply Hkeep1.
  - intros v q Hv Hnot Hq Hcol. apply Hcontent; [done|lia|by apply Hkeep1|].
    apply lookup_arraySet_ne; [|done].
    intros Heq. destruct Hwf1 as [_ Hinj].
    assert (columnIdx = v); [|lia].
    apply (Hinj columnIdx v q); [by rewrite <- Heq|by apply Hkeep1].
  - intros c Hc. destruct (decide (c = columnIdx)) as [->|Hne].
    + exists added.1. split.
      * apply Hkeep; [lia|done].
      * apply Hcontent; [lia|lia|done|]. apply lookup_arraySet_eq.
    + apply Hvisited. lia.
Qed.

(** Sizes: [columnsToRender] holds at most one more column per iteration and
    never grows past the allocator's slot count. *)
Lemma offsetsLoop_sizes n : forall columnIdx runningOffset columns offsets bufferSet,
  SlotAllocator.wf bufferSet ->
  (length columns <= size bufferSet)%nat ->
  let result := loop n columnIdx runningOffset columns offsets bufferSet in
  (length result.1.1 <= size result.2)%nat /\
  (filledSlots result.1.1 <= filledSlots columns + n)%nat /\
  (size bufferSet <= size result.2 <= size bufferSet + n)%nat.
Proof.
  induction n as [|n IH]; intros columnIdx runningOffset columns offsets bufferSet Hwf Hlen.
  { simpl. lia. }
  simpl. rewrite offsetsLoop_S. simpl.
  pose proof (addColumnToBuffer_spec columnIdx bufferSet startIdx endIdx
                renderedColumnsCount Hwf) as Hadd.
  set (added := addColumnToBuffer columnIdx bufferSet startIdx endIdx renderedColumnsCount)
    in *.
  simpl in Hadd. destruct Hadd as (Hwf1 & Hself & _ & Hsize1).
  destruct (IH (columnIdx + 1) (runningOffset + OffsetStore.get tree columnIdx)
              (arraySet columns added.1 columnIdx) (<[columnIdx := runningOffset]> offsets)
              added.2 Hwf1) as (Hlen' & Hfilled & Hsize').
  { rewrite length_arraySet. destruct Hwf1 as [Hbound _]. apply Hbound in Hself. lia. }
  pose proof (filledSlots_arraySet columns added.1 columnIdx).
  split; [done|]. split; lia.
Qed.

End OffsetsLoop.

(** ** Shape of the computed range *)

Lemma clamp_bounds number upper : 0 <= upper -> 0 <= clamp number 0 upper <= upper.
Proof.
  intros H. unfold clamp.
  destruct (Z.leb_spec number upper); [destruct (Z.leb_spec 0 number)|
                                       destruct (Z.leb_spec 0 upper)]; lia.
Qed.

(** For a degenerate state or a well-formed anchor there is a range; the
    buffer span is the viewport span, inside the column list, and the state
    is written only in its span fields and its Offset Store. *)
Lemma calculateRenderedColumnRange_shape state columnAnchor :
  degenerate state \/ anchorWellFormed state columnAnchor ->
  exists state' columnRange,
    calculateRenderedColumnRange state columnAnchor = Some (state', columnRange) /\
    firstBufferCol columnRange = firstViewportCol columnRange /\
    endBufferCol columnRange = endViewportCol columnRange /\
    0 <= firstViewportCol columnRange <= endViewportCol columnRange /\
    endViewportCol columnRange <= columnCountOf state /\
    (degenerate state -> firstViewportCol columnRange = 0 /\ endViewportCol columnRange = 0) /\
    (~ degenerate state -> firstViewportCol columnRange < endViewportCol columnRange) /\
    firstColumnIndex state' = firstViewportCol columnRange /\
    endColumnIndex state' = endViewportCol columnRange /\
    scrolling state' = scrolling state /\
    scrollX state' = scrollX state /\
    columnBufferSet state' = columnBufferSet state /\
    columnLayout state' = columnLayout state.
Proof.
  intros H.
  destruct (decide (degenerate state)) as [Hd|Hnd].
  { rewrite calculateRenderedColumnRange_degenerate by done.
    eexists _, _. split; [done|]. simpl. unfold columnCountOf.
    repeat split; try done; try lia. }
  destruct H as [Hd|Hwf]; [done|].
  unfold anchorWellFormed in Hwf.
  destruct (clampedLastIndex state columnAnchor) as [l|] eqn:Hl.
  - pose proof (clampedLastIndex_below state columnAnchor l Hl) as Hlt.
    assert (Hcount : 0 < columnCountOf state).
    { unfold degenerate in Hnd. unfold columnCountOf in *. lia. }
    specialize (Hlt Hcount).
    destruct (calculateRenderedColumnRange_backward state columnAnchor l Hnd Hl Hwf)
      as (state' & stop & -> & Hsame & Hstop & _).
    eexists _, _. split; [done|]. simpl. rewrite Hsame. simpl.
    destruct (Z.eqb_spec stop l); repeat split; try done; lia.
  - destruct (firstIndex columnAnchor) as [i|] eqn:Hi; [|done].
    destruct (firstOffset columnAnchor) as [o|] eqn:Ho; [|done].
    pose proof (clampedLastIndex_forward state columnAnchor i Hl Hi) as Hlt.
    destruct (calculateRenderedColumnRange_forward state columnAnchor i o Hnd Hl Hi Ho Hwf)
      as (state' & stop & -> & Hsame & Hstop & _).
    eexists _, _. split; [done|]. simpl. rewrite Hsame. simpl.
    destruct (Z.eqb_spec stop i); repeat split; try done; lia.
Qed.

(** With an empty buffer padding both windows are the viewport span. *)
Lemma windowOf_viewport columnRange viewportOnly :
  firstBufferCol columnRange = firstViewportCol columnRange ->
  endBufferCol columnRange = endViewportCol columnRange ->
  windowOf columnRange viewportOnly =
    (firstViewportCol columnRange, endViewportCol columnRange).
Proof. intros H1 H2. unfold windowOf. rewrite H1, H2. by destruct viewportOnly. Qed.

(** The outputs of the offset and slot assignor, spelled out for a span
    that is not empty. *)
Lemma computeRenderedColumnOffsets_run state columnRange viewportOnly :
  endBufferCol columnRange - firstBufferCol columnRange <> 0 ->
  let window := windowOf columnRange viewportOnly in
  let result :=
    offsetsLoop (Z.to_nat (window.2 - window.1)) (columnOffsetIntervalTree state)
      window.1 window.2 (endBufferCol columnRange - firstBufferCol columnRange)
      window.1 (OffsetStore.sumUntil (columnOffsetIntervalTree state) window.1)
      [] ∅ (columnBufferSet state) in
  computeRenderedColumnOffsets state columnRange viewportOnly =
    set_rendered result.1.1 result.1.2 result.2 state.
Proof.
  intros Hspan. unfold computeRenderedColumnOffsets.
  destruct (Z.eqb_spec (endBufferCol columnRange - firstBufferCol columnRange) 0); [done|].
  destruct (windowOf columnRange viewportOnly) as [startIdx endIdx]. simpl.
  destruct (offsetsLoop _ _ _ _ _ _ _ _ _ _) as [[columns offsets] bufferSet]. done.
Qed.

(** ** Properties of the layout decision *)

(** Offsets recorded over a non-empty window of a span that is not empty. *)
Lemma offsets_of_window state columnRange viewportOnly :
  let window := windowOf columnRange viewportOnly in
  let tree := columnOffsetIntervalTree state in
  let offsets :=
    columnOffsets (computeRenderedColumnOffsets state columnRange viewportOnly) in
  endBufferCol columnRange - firstBufferCol columnRange <> 0 ->
  window.1 < window.2 ->
  offsets !! window.1 = Some (OffsetStore.sumUntil tree window.1) /\
  forall i, window.1 <= i -> i + 1 < window.2 ->
    exists a b, offsets !! i = Some a /\ offsets !! (i + 1) = Some b /\
                b - a = OffsetStore.get tree i.
Proof.
  intros window tree offsets Hspan Hwindow.
  subst offsets. rewrite computeRenderedColumnOffsets_run by done.
  subst window tree. destruct (windowOf columnRange viewportOnly) as [startIdx endIdx].
  simpl in *.
  destruct (offsetsLoop_offsets (columnOffsetIntervalTree state) startIdx endIdx
              (endBufferCol columnRange - firstBufferCol columnRange)
              (Z.to_nat (endIdx - startIdx)) startIdx
              (OffsetStore.sumUntil (columnOffsetIntervalTree state) startIdx)
              [] ∅ (columnBufferSet state))
    as [Hin _].
  split.
  - rewrite Hin by lia. rewrite sumRange_empty by lia. f_equal. lia.
  - intros i Hlo Hhi. eexists _, _.
    split; [apply Hin; lia|]. split; [apply Hin; lia|].
    rewrite (sumRange_last _ startIdx i) by lia. lia.
Qed.

(** The offset of the first viewport column is recorded whenever the span
    is the viewport span and is not empty. *)
Lemma computeRenderedColumnOffsets_first state columnRange viewportOnly :
  firstBufferCol columnRange = firstViewportCol columnRange ->
  endBufferCol columnRange = endViewportCol columnRange ->
  firstViewportCol columnRange < endViewportCol columnRange ->
  is_Some (columnOffsets (computeRenderedColumnOffsets state columnRange viewportOnly)
             !! firstViewportCol columnRange).
Proof.
  intros Hfirst Hend Hlt.
  destruct (offsets_of_window state columnRange viewportOnly) as [Hstart _].
  - lia.
  - rewrite windowOf_viewport by done. simpl. lia.
  - rewrite windowOf_viewport in Hstart by done. simpl in Hstart. eauto.
Qed.

(** C1.  For a span that is not empty and a non-empty window,
    [computeRenderedColumnOffsets] records at the window's start index the
    Offset Store's prefix sum up to that index, and for consecutive indices
    [i], [i+1] inside the window the recorded offsets differ by the stored
    width of column [i].  With five 100px columns, a 250px viewport and the
    forward anchor [{firstIndex: 0, firstOffset: 0}] the reducer yields
    [firstViewportCol = 0], [endViewportCol = 3], [firstColumnOffset = 0] and
    [columnOffsets = {0: 0, 1: 100, 2: 200}]. *)
Theorem computeRenderedColumnOffsets_offsets :
  (forall state columnRange viewportOnly,
     let window := windowOf columnRange viewportOnly in
     let tree := columnOffsetIntervalTree state in
     let offsets :=
       columnOffsets (computeRenderedColumnOffsets state columnRange viewportOnly) in
     endBufferCol columnRange - firstBufferCol columnRange <> 0 ->
     window.1 < window.2 ->
     offsets !! window.1 = Some (OffsetStore.sumUntil tree window.1) /\
     forall i, window.1 <= i -> i + 1 < window.2 ->
       exists a b, offsets !! i = Some a /\ offsets !! (i + 1) = Some b /\
                   b - a = OffsetStore.get tree i) /\
  (exists state1 columnRange state',
     calculateRenderedColumnRange fiveColumns (forwardAnchor 0 0)
       = Some (state1, columnRange) /\
     firstViewportCol columnRange = 0 /\ endViewportCol columnRange = 3 /\
     computeRenderedColumns fiveColumns (forwardAnchor 0 0) = Some state' /\
     firstColumnOffset state' = 0 /\
     columnOffsets state' = {[0 := 0; 1 := 100; 2 := 200]}).
Proof.
  split; [exact offsets_of_window|].
  eexists _, _, _. split; [vm_compute; reflexivity|].
  split; [reflexivity|]. split; [reflexivity|].
  split; [vm_compute; reflexivity|]. split; [reflexivity|].
  vm_compute. reflexivity.
Qed.

(** C1, at the five-column example with the backward anchor
    [{lastIndex: 4}]: the offsets of columns 2, 3 and 4 are consecutive. *)
Lemma computeRenderedColumnOffsets_offsets_witness :
  let state :=
    default fiveColumns
      (fst <$> calculateRenderedColumnRange fiveColumns (backwardAnchor 4)) in
  let columnRange :=
    {| endBufferCol := 5; endViewportCol := 5; firstBufferCol := 2; firstViewportCol := 2 |} in
  let offsets := columnOffsets (computeRenderedColumnOffsets state columnRange false) in
  offsets !! 2 = Some (OffsetStore.sumUntil (columnOffsetIntervalTree state) 2) /\
  forall i, 2 <= i -> i + 1 < 5 ->
    exists a b, offsets !! i = Some a /\ offsets !! (i + 1) = Some b /\
                b - a = OffsetStore.get (columnOffsetIntervalTree state) i.
Proof.
  intros state columnRange.
  apply (proj1 computeRenderedColumnOffsets_offsets state columnRange false).
  - vm_compute. discriminate.
  - vm_compute. reflexivity.
Defined.

(** How the orchestrator finishes once the range is known. *)
Lemma computeRenderedColumns_unfold state columnAnchor state1 columnRange :
  calculateRenderedColumnRange state columnAnchor = Some (state1, columnRange) ->
  computeRenderedColumns state columnAnchor =
    let newState := computeRenderedColumnOffsets state1 columnRange (scrolling state1) in
    scrollX ←
      (if firstViewportCol columnRange =? endViewportCol columnRange
       then Some (scrollX state)
       else
         offset ← columnOffsets newState !! firstViewportCol columnRange;
         Some (offset - firstColumnOffset newState));
    Some (set_scrollX (clamp scrollX 0 (maxScrollX (columnWidths state))) newState).
Proof. intros H. unfold computeRenderedColumns. rewrite H. done. Qed.

(** C2.  For a degenerate state or a well-formed anchor the reducer returns
    a state whose [scrollX] is [columnOffsets[firstViewportCol] -
    firstColumnOffset] when the viewport span is not empty and the input
    [scrollX] when it is empty, passed through [clamp(_, 0, maxScrollX)] in
    both cases; the result lies in [[0, maxScrollX]] when that interval is
    not empty. *)
Theorem computeRenderedColumns_scrollX state columnAnchor :
  degenerate state \/ anchorWellFormed state columnAnchor ->
  exists state1 columnRange state',
    calculateRenderedColumnRange state columnAnchor = Some (state1, columnRange) /\
    computeRenderedColumns state columnAnchor = Some state' /\
    let maxScrollX := maxScrollX (columnWidths state) in
    (firstViewportCol columnRange <> endViewportCol columnRange ->
     exists offset,
       columnOffsets state' !! firstViewportCol columnRange = Some offset /\
       scrollX state' = clamp (offset - firstColumnOffset state') 0 maxScrollX) /\
    (firstViewportCol columnRange = endViewportCol columnRange ->
     scrollX state' = clamp (scrollX state) 0 maxScrollX) /\
    (0 <= maxScrollX -> 0 <= scrollX state' <= maxScrollX).
Proof.
  intros H.
  destruct (calculateRenderedColumnRange_shape state columnAnchor H)
    as (state1 & columnRange & Hrange & Hfirst & Hend & Hbounds & _ & _ & _ & _).
  exists state1, columnRange.
  rewrite (computeRenderedColumns_unfold _ _ _ _ Hrange). simpl.
  destruct (Z.eqb_spec (firstViewportCol columnRange) (endViewportCol columnRange))
    as [Heq|Hne]; simpl.
  - eexists. split; [done|]. split; [done|]. simpl.
    split; [done|]. split; [done|]. apply clamp_bounds.
  - destruct (computeRenderedColumnOffsets_first state1 columnRange (scrolling state1))
      as [offset Hoffset]; [done|done|lia|].
    rewrite Hoffset. simpl.
    eexists. split; [done|]. split; [done|]. simpl.
    split; [|split; [done|apply clamp_bounds]].
    intros _. exists offset. done.
Qed.

(** C2, at the five-column example with the backward anchor. *)
Lemma computeRenderedColumns_scrollX_witness :
  exists state1 columnRange state',
    calculateRenderedColumnRange fiveColumns (backwardAnchor 4)
      = Some (state1, columnRange) /\
    computeRenderedColumns fiveColumns (backwardAnchor 4) = Some state' /\
    (firstViewportCol columnRange <> endViewportCol columnRange ->
     exists offset,
       columnOffsets state' !! firstViewportCol columnRange = Some offset /\
       scrollX state' = clamp (offset - firstColumnOffset state') 0 250) /\
    (firstViewportCol columnRange = endViewportCol columnRange ->
     scrollX state' = clamp (scrollX fiveColumns) 0 250) /\
    (0 <= 250 -> 0 <= scrollX state' <= 250).
Proof.
  apply (computeRenderedColumns_scrollX fiveColumns (backwardAnchor 4)).
  right. vm_compute. discriminate.
Defined.

(** C9.  With an available scroll width of 0 or no scrollable column, and
    for every anchor, the range calculator sets [firstColumnIndex =
    endColumnIndex = 0] and [firstColumnOffset = 0] and returns the all-zero
    range; the reducer returns a state with empty [columnOffsets] and
    [columnsToRender] whose [scrollX] is the input [scrollX] passed through
    [clamp(_, 0, maxScrollX)]. *)
Theorem computeRenderedColumns_degenerate state columnAnchor :
  degenerate state ->
  exists state1 state',
    calculateRenderedColumnRange state columnAnchor =
      Some (state1, {| endBufferCol := 0; endViewportCol := 0;
                       firstBufferCol := 0; firstViewportCol := 0 |}) /\
    firstColumnIndex state1 = 0 /\ endColumnIndex state1 = 0 /\
    firstColumnOffset state1 = 0 /\
    computeRenderedColumns state columnAnchor = Some state' /\
    firstColumnIndex state' = 0 /\ endColumnIndex state' = 0 /\
    firstColumnOffset state' = 0 /\
    columnOffsets state' = ∅ /\ columnsToRender state' = [] /\
    scrollX state' = clamp (scrollX state) 0 (maxScrollX (columnWidths state)) /\
    (0 <= maxScrollX (columnWidths state) ->
     0 <= scrollX state' <= maxScrollX (columnWidths state)).
Proof.
  intros Hd.
  pose proof (calculateRenderedColumnRange_degenerate state columnAnchor Hd) as Hrange.
  eexists _, _. split; [exact Hrange|].
  rewrite (computeRenderedColumns_unfold _ _ _ _ Hrange). simpl.
  repeat (split; [done|]). apply clamp_bounds.
Qed.

(** C9, with no scrollable column and with a zero-width viewport. *)
Lemma computeRenderedColumns_degenerate_witness :
  (exists state',
     computeRenderedColumns (initialState [] 250 0) (forwardAnchor 3 (-20)) = Some state' /\
     columnOffsets state' = ∅ /\ columnsToRender state' = [] /\ scrollX state' = 0) /\
  (exists state',
     computeRenderedColumns (initialState [100; 100] 0 40) (backwardAnchor 1) = Some state' /\
     columnOffsets state' = ∅ /\ columnsToRender state' = [] /\ scrollX state' = 0).
Proof.
  split.
  - destruct (computeRenderedColumns_degenerate (initialState [] 250 0) (forwardAnchor 3 (-20)))
      as (state1 & state' & _ & _ & _ & _ & Hrun & _ & _ & _ & Hoffsets & Hcolumns & Hx & _).
    { right. reflexivity. }
    exists state'. repeat (split; [assumption|]). rewrite Hx. reflexivity.
  - destruct (computeRenderedColumns_degenerate (initialState [100; 100] 0 40)
                (backwardAnchor 1))
      as (state1 & state' & _ & _ & _ & _ & Hrun & _ & _ & _ & Hoffsets & Hcolumns & Hx & _).
    { left. reflexivity. }
    exists state'. repeat (split; [assumption|]). rewrite Hx. reflexivity.
Defined.

(** C4.  For a degenerate state or a well-formed anchor the returned range
    satisfies [firstBufferCol <= firstViewportCol <= endViewportCol <=
    endBufferCol], and all four bounds lie within [[0, columnCount]]. *)
Theorem calculateRenderedColumnRange_bounds state columnAnchor :
  degenerate state \/ anchorWellFormed state columnAnchor ->
  exists state' columnRange,
    calculateRenderedColumnRange state columnAnchor = Some (state', columnRange) /\
    firstBufferCol columnRange <= firstViewportCol columnRange /\
    firstViewportCol columnRange <= endViewportCol columnRange /\
    endViewportCol columnRange <= endBufferCol columnRange /\
    0 <= firstBufferCol columnRange /\
    endBufferCol columnRange <= columnCountOf state.
Proof.
  intros H.
  destruct (calculateRenderedColumnRange_shape state columnAnchor H)
    as (state' & columnRange & Hrange & Hfirst & Hend & Hbounds & Hcount & _).
  exists state', columnRange. split; [done|]. lia.
Qed.

(** C4, for an anchor that points past the last of five columns. *)
Lemma calculateRenderedColumnRange_bounds_witness :
  exists state' columnRange,
    calculateRenderedColumnRange fiveColumns (forwardAnchor 7 0) = Some (state', columnRange) /\
    firstBufferCol columnRange <= firstViewportCol columnRange /\
    firstViewportCol columnRange <= endViewportCol columnRange /\
    endViewportCol columnRange <= endBufferCol columnRange /\
    0 <= firstBufferCol columnRange /\
    endBufferCol columnRange <= 5.
Proof.
  apply (calculateRenderedColumnRange_bounds fiveColumns (forwardAnchor 7 0)).
  right. vm_compute. discriminate.
Defined.

(** C10.  [bufferColumnCount] is 0, so for a well-formed anchor on a state
    that is not degenerate the returned range has [firstBufferCol =
    firstViewportCol] and [endBufferCol = endViewportCol], and
    [computeRenderedColumnOffsets] produces the same state, hence the same
    [columnOffsets] and [columnsToRender], whether [viewportOnly] is true or
    false. *)
Theorem computeRenderedColumnOffsets_viewportOnly state columnAnchor :
  ~ degenerate state -> anchorWellFormed state columnAnchor ->
  bufferColumnCount = 0 /\
  exists state' columnRange,
    calculateRenderedColumnRange state columnAnchor = Some (state', columnRange) /\
    firstBufferCol columnRange = firstViewportCol columnRange /\
    endBufferCol columnRange = endViewportCol columnRange /\
    computeRenderedColumnOffsets state' columnRange true =
    computeRenderedColumnOffsets state' columnRange false.
Proof.
  intros Hnd Hwf. split; [done|].
  destruct (calculateRenderedColumnRange_shape state columnAnchor (or_intror Hwf))
    as (state' & columnRange & Hrange & Hfirst & Hend & _).
  exists state', columnRange. repeat (split; [done|]).
  unfold computeRenderedColumnOffsets.
  rewrite !windowOf_viewport by done. done.
Qed.

(** C10, at the five-column example. *)
Lemma computeRenderedColumnOffsets_viewportOnly_witness :
  bufferColumnCount = 0 /\
  exists state' columnRange,
    calculateRenderedColumnRange fiveColumns (forwardAnchor 1 (-30))
      = Some (state', columnRange) /\
    firstBufferCol columnRange = firstViewportCol columnRange /\
    endBufferCol columnRange = endViewportCol columnRange /\
    computeRenderedColumnOffsets state' columnRange true =
    computeRenderedColumnOffsets state' columnRange false.
Proof.
  apply (computeRenderedColumnOffsets_viewportOnly fiveColumns (forwardAnchor 1 (-30))).
  - vm_compute. intros [H|H]; discriminate.
  - vm_compute. discriminate.
Defined.

(** A walk that starts left of the first column does not move. *)
Lemma calculateRenderedColumnRange_outside state columnAnchor step startIdy total offset :
  ~ degenerate state -> startIdy < 0 ->
  (clampedLastIndex state columnAnchor = Some startIdy /\ step = -1 /\ total = 0 /\
   offset = Z.min (availableScrollWidth (columnWidths state) - 0) 0) \/
  (clampedLastIndex state columnAnchor = None /\ step = 1 /\
   firstIndex columnAnchor = Some startIdy /\ firstOffset columnAnchor = Some total /\
   offset = total) ->
  calculateRenderedColumnRange state columnAnchor =
    Some (set_columnSpan startIdy (startIdy + 1) offset state,
          {| endBufferCol := startIdy + 1; endViewportCol := startIdy + 1;
             firstBufferCol := 0; firstViewportCol := startIdy |}).
Proof.
  intros Hnd Hneg Hcase.
  unfold calculateRenderedColumnRange. fold (columnCountOf state).
  destruct ((availableScrollWidth (columnWidths state) =? 0) || (columnCountOf state =? 0))
    eqn:E; [apply degenerate_test in E; done|].
  unfold clampedLastIndex in Hcase.
  destruct Hcase as [(Hl & -> & -> & ->)|(Hl & -> & Hi & Ho & ->)];
    rewrite Hl; [|rewrite Hi, Ho]; simpl;
    unfold columnCountOf, columnWidths;
    rewrite walkViewport_stop by (left; done); simpl;
    unfold bufferColumnCount;
    rewrite Z.min_id, Z.max_id;
    replace (Z.to_nat (startIdy - Z.max (startIdy - 0) 0)) with 0%nat by lia;
    replace (Z.to_nat (Z.min (startIdy + 1 + 0)
                             (Z.of_nat (length (scrollableColumns (columnLayout state))))
                       - (startIdy + 1)))
      with 0%nat by lia;
    simpl;
    replace (Z.max (startIdy - 0) 0) with 0 by lia;
    replace (Z.min (startIdy + 1 + 0)
                   (Z.of_nat (length (scrollableColumns (columnLayout state)))))
      with (startIdy + 1) by lia;
    done.
Qed.

(** C3.  Backward-anchored ([lastIndex] defined after the clamp): the stored
    [firstColumnOffset] is [min(availableScrollWidth - accumulatedWidth, 0)],
    where the accumulated width is the [totalWidth] the backward walk ends
    with, the total width of the viewport columns when the available width
    is positive.  Forward-anchored: [firstColumnOffset] is the anchor's
    [firstOffset], unchanged.  With five 100px columns, a 250px viewport and
    the anchor [{lastIndex: 4}]: [endViewportCol = 5], [firstViewportCol = 2],
    [firstColumnOffset = -50]. *)
Theorem calculateRenderedColumnRange_firstColumnOffset :
  (forall state columnAnchor l,
     ~ degenerate state -> clampedLastIndex state columnAnchor = Some l ->
     let columnCount := columnCountOf state in
     let available := availableScrollWidth (columnWidths state) in
     exists state' columnRange walked endIdy accumulatedWidth,
       calculateRenderedColumnRange state columnAnchor = Some (state', columnRange) /\
       walkViewport (S (Z.to_nat columnCount)) columnCount available (-1) state l l 0
         = Some (walked, endIdy, accumulatedWidth) /\
       firstColumnOffset state' = Z.min (available - accumulatedWidth) 0 /\
       (0 < available ->
        accumulatedWidth =
          spanWidth (scrollableColumns (columnWidths state))
                    (firstViewportCol columnRange) (endViewportCol columnRange))) /\
  (forall state columnAnchor i o,
     ~ degenerate state -> clampedLastIndex state columnAnchor = None ->
     firstIndex columnAnchor = Some i -> firstOffset columnAnchor = Some o ->
     exists state' columnRange,
       calculateRenderedColumnRange state columnAnchor = Some (state', columnRange) /\
       firstColumnOffset state' = o) /\
  (exists state' columnRange,
     calculateRenderedColumnRange fiveColumns (backwardAnchor 4)
       = Some (state', columnRange) /\
     endViewportCol columnRange = 5 /\ firstViewportCol columnRange = 2 /\
     firstColumnOffset state' = -50).
Proof.
  split; [|split].
  - intros state columnAnchor l Hnd Hl columnCount available.
    destruct (decide (l < 0)) as [Hneg|Hpos].
    + eexists _, _, state, l, 0.
      split; [apply (calculateRenderedColumnRange_outside state columnAnchor (-1) l 0);
              [done|done|left; done]|].
      split; [unfold columnCount, available, columnCountOf, columnWidths;
              apply walkViewport_stop; left; done|].
      simpl. split; [subst available; f_equal; lia|].
      intros _. unfold spanWidth. rewrite sumRange_first, sumRange_empty by lia.
      unfold widthAt. destruct (Z.ltb_spec l 0); lia.
    + destruct (calculateRenderedColumnRange_backward state columnAnchor l Hnd Hl)
        as (state' & stop & Hrange & Hsame & Hstop & Hexit & Hcont & Hrun); [lia|].
      eexists _, _, _, _, _. split; [exact Hrange|]. split; [exact Hrun|].
      rewrite Hsame. simpl. split; [done|].
      intros Havailable. fold available in Hexit.
      destruct (Z.eqb_spec stop l) as [Heq|Hne].
      * destruct Hexit as [Hexit|Hexit]; [lia|].
        unfold spanWidth in Hexit. rewrite sumRange_empty in Hexit by lia. lia.
      * f_equal. lia.
  - intros state columnAnchor i o Hnd Hl Hi Ho.
    destruct (decide (i < 0)) as [Hneg|Hpos].
    + eexists _, _.
      split; [apply (calculateRenderedColumnRange_outside state columnAnchor 1 i o);
              [done|done|right; done]|].
      done.
    + destruct (calculateRenderedColumnRange_forward state columnAnchor i o Hnd Hl Hi Ho)
        as (state' & stop & Hrange & Hsame & _); [lia|].
      eexists _, _. split; [exact Hrange|]. rewrite Hsame. done.
  - eexists _, _. split; [vm_compute; reflexivity|]. done.
Qed.

(** C3, at a backward anchor that is clamped to the last column and at a
    forward anchor with a sub-column shift. *)
Lemma calculateRenderedColumnRange_firstColumnOffset_witness :
  (exists state' columnRange,
     calculateRenderedColumnRange threeColumns (backwardAnchor 9)
       = Some (state', columnRange) /\
     firstColumnOffset state' = -50) /\
  (exists state' columnRange,
     calculateRenderedColumnRange fiveColumns (forwardAnchor 1 (-30))
       = Some (state', columnRange) /\
     firstColumnOffset state' = -30).
Proof.
  destruct calculateRenderedColumnRange_firstColumnOffset as (Hbackward & Hforward & _).
  split.
  - destruct (Hbackward threeColumns (backwardAnchor 9) 2)
      as (state' & columnRange & walked & endIdy & total & Hrange & Hrun & Hoffset & _).
    { vm_compute. intros [H|H]; discriminate. }
    { reflexivity. }
    exists state', columnRange. split; [exact Hrange|].
    rewrite Hoffset. vm_compute in Hrun. injection Hrun as _ _ <-. reflexivity.
  - apply (Hforward fiveColumns (forwardAnchor 1 (-30)) 1 (-30)).
    + vm_compute. intros [H|H]; discriminate.
    + reflexivity.
    + reflexivity.
    + reflexivity.
Defined.

(** The slot facts of one call of the offset and slot assignor. *)
Lemma computeRenderedColumnOffsets_slots state columnRange viewportOnly :
  SlotAllocator.wf (columnBufferSet state) ->
  endBufferCol columnRange - firstBufferCol columnRange <> 0 ->
  let window := windowOf columnRange viewportOnly in
  let after := computeRenderedColumnOffsets state columnRange viewportOnly in
  SlotAllocator.wf (columnBufferSet after) /\
  (forall v q, window.1 <= v < window.2 -> columnBufferSet state !! v = Some q ->
     columnBufferSet after !! v = Some q) /\
  (forall c, window.1 <= c < window.2 ->
     exists q, columnBufferSet after !! c = Some q /\
               columnsToRender after !! q = Some (Some c)).
Proof.
  intros Hwf Hspan window after. subst after.
  rewrite computeRenderedColumnOffsets_run by done.
  subst window. destruct (windowOf columnRange viewportOnly) as [startIdx endIdx].
  simpl.
  destruct (offsetsLoop_slots (columnOffsetIntervalTree state) startIdx endIdx
              (endBufferCol columnRange - firstBufferCol columnRange)
              (Z.to_nat (endIdx - startIdx)) startIdx
              (OffsetStore.sumUntil (columnOffsetIntervalTree state) startIdx)
              [] ∅ (columnBufferSet state) Hwf)
    as (Hwf' & Hkeep & _ & Hvisited); [lia|lia|].
  split; [done|]. split; [done|].
  intros c Hc. apply Hvisited. lia.
Qed.

(** C6, as stated, fails for a column that lies in the union of the two
    windows but not in the second one.  Five 100px columns, 250px viewport:
    the first call shows columns 0 to 2 in slots 0 to 2, the second call,
    anchored at the last column, shows columns 2 to 4.  Column 0 is tracked
    and lies in the union of the windows, yet the second call evicts it and
    hands its slot 0 to column 3. *)
Lemma column_in_union_counterexample :
  exists state1 state2,
    computeRenderedColumns fiveColumns (forwardAnchor 0 0) = Some state1 /\
    computeRenderedColumns state1 (backwardAnchor 4) = Some state2 /\
    (firstColumnIndex state1, endColumnIndex state1) = (0, 3) /\
    (firstColumnIndex state2, endColumnIndex state2) = (2, 5) /\
    SlotAllocator.getValuePosition (columnBufferSet state1) 0 = Some 0%nat /\
    columnsToRender state1 !! 0%nat = Some (Some 0) /\
    SlotAllocator.getValuePosition (columnBufferSet state2) 0 = None /\
    columnsToRender state2 !! 0%nat = Some (Some 3).
Proof.
  eexists _, _. split; [vm_compute; reflexivity|].
  split; [vm_compute; reflexivity|].
  repeat split; vm_compute; reflexivity.
Qed.

(** C6, amended.  A column that already has a slot gets that slot back from
    [addColumnToBuffer], for any window and capacity, and the allocator is
    left as it was.  Hence a column that lies in the windows of both of two
    consecutive calls of [computeRenderedColumnOffsets] on the same
    allocator sits at one and the same slot of [columnsToRender] after both
    calls. *)
Theorem addColumnToBuffer_stable :
  (forall columnIdx (bufferSet : gmap Z nat) startRange endRange maxBufferSize position,
     SlotAllocator.getValuePosition bufferSet columnIdx = Some position ->
     addColumnToBuffer columnIdx bufferSet startRange endRange maxBufferSize
       = (position, bufferSet)) /\
  (forall state1 range1 viewportOnly1 state2 range2 viewportOnly2 columnIdx,
     let after1 := computeRenderedColumnOffsets state1 range1 viewportOnly1 in
     let after2 := computeRenderedColumnOffsets state2 range2 viewportOnly2 in
     let window1 := windowOf range1 viewportOnly1 in
     let window2 := windowOf range2 viewportOnly2 in
     SlotAllocator.wf (columnBufferSet state1) ->
     columnBufferSet state2 = columnBufferSet after1 ->
     endBufferCol range1 - firstBufferCol range1 <> 0 ->
     endBufferCol range2 - firstBufferCol range2 <> 0 ->
     window1.1 <= columnIdx < window1.2 ->
     window2.1 <= columnIdx < window2.2 ->
     exists slot,
       SlotAllocator.getValuePosition (columnBufferSet after1) columnIdx = Some slot /\
       SlotAllocator.getValuePosition (columnBufferSet after2) columnIdx = Some slot /\
       columnsToRender after1 !! slot = Some (Some columnIdx) /\
       columnsToRender after2 !! slot = Some (Some columnIdx)).
Proof.
  split.
  - intros columnIdx bufferSet startRange endRange maxBufferSize position Hposition.
    unfold addColumnToBuffer. rewrite Hposition. done.
  - intros state1 range1 viewportOnly1 state2 range2 viewportOnly2 columnIdx
      after1 after2 window1 window2 Hwf Hsame Hspan1 Hspan2 Hin1 Hin2.
    destruct (computeRenderedColumnOffsets_slots state1 range1 viewportOnly1 Hwf Hspan1)
      as (Hwf1 & _ & Hvisited1).
    destruct (Hvisited1 columnIdx Hin1) as (slot & Hslot1 & Hcolumn1).
    fold after1 in Hwf1, Hslot1, Hcolumn1.
    rewrite <- Hsame in Hwf1, Hslot1.
    destruct (computeRenderedColumnOffsets_slots state2 range2 viewportOnly2 Hwf1 Hspan2)
      as (_ & Hkeep2 & Hvisited2).
    destruct (Hvisited2 columnIdx Hin2) as (slot2 & Hslot2 & Hcolumn2).
    fold after2 in Hslot2, Hcolumn2, Hkeep2.
    pose proof (Hkeep2 columnIdx slot Hin2 Hslot1) as Hkept.
    assert (slot2 = slot) as -> by congruence.
    exists slot. unfold SlotAllocator.getValuePosition.
    rewrite <- Hsame. done.
Qed.

(** C6 amended, at the five-column example: column 2 is shown by the forward
    anchor at column 0 and again by the backward anchor at column 4. *)
Lemma addColumnToBuffer_stable_witness :
  addColumnToBuffer 2 {[2 := 2%nat; 1 := 1%nat; 0 := 0%nat]} 2 5 3
    = (2%nat, {[2 := 2%nat; 1 := 1%nat; 0 := 0%nat]}) /\
  let range1 :=
    {| endBufferCol := 3; endViewportCol := 3; firstBufferCol := 0; firstViewportCol := 0 |} in
  let range2 :=
    {| endBufferCol := 5; endViewportCol := 5; firstBufferCol := 2; firstViewportCol := 2 |} in
  let after1 := computeRenderedColumnOffsets fiveColumns range1 false in
  let after2 := computeRenderedColumnOffsets after1 range2 false in
  exists slot,
    SlotAllocator.getValuePosition (columnBufferSet after1) 2 = Some slot /\
    SlotAllocator.getValuePosition (columnBufferSet after2) 2 = Some slot /\
    columnsToRender after1 !! slot = Some (Some 2) /\
    columnsToRender after2 !! slot = Some (Some 2).
Proof.
  destruct addColumnToBuffer_stable as [Hreuse Hstable].
  split.
  - apply Hreuse. reflexivity.
  - intros range1 range2 after1 after2.
    apply (Hstable fiveColumns range1 false after1 range2 false 2).
    + exact wf_empty.
    + reflexivity.
    + vm_compute. discriminate.
    + vm_compute. discriminate.
    + vm_compute. split; [discriminate|reflexivity].
    + vm_compute. split; [discriminate|reflexivity].
Defined.

(** C7.  The column has no slot, the allocator is at capacity and every
    tracked column lies inside the closed window [[startRange, endRange - 1]]:
    the eviction request answers with no slot and leaves the allocator as it
    was, [addColumnToBuffer] hands out a fresh slot, and the tracked count
    grows by one, past the capacity.  The call returns a slot; nothing is
    raised. *)
Theorem addColumnToBuffer_no_candidate columnIdx (bufferSet : gmap Z nat)
    startRange endRange maxBufferSize :
  SlotAllocator.getValuePosition bufferSet columnIdx = None ->
  maxBufferSize <= Z.of_nat (SlotAllocator.getSize bufferSet) ->
  (forall value position,
     SlotAllocator.getValuePosition bufferSet value = Some position ->
     startRange <= value <= endRange - 1) ->
  let result := addColumnToBuffer columnIdx bufferSet startRange endRange maxBufferSize in
  SlotAllocator.replaceFurthestValuePosition bufferSet startRange (endRange - 1) columnIdx
    = (None, bufferSet) /\
  result = SlotAllocator.getNewPositionForValue bufferSet columnIdx /\
  SlotAllocator.getValuePosition result.2 columnIdx = Some result.1 /\
  SlotAllocator.getSize result.2 = S (SlotAllocator.getSize bufferSet) /\
  maxBufferSize < Z.of_nat (SlotAllocator.getSize result.2).
Proof.
  intros Hnone Hfull Hinside result.
  unfold SlotAllocator.getValuePosition in Hnone, Hinside.
  assert (Hrequest :
    SlotAllocator.replaceFurthestValuePosition bufferSet startRange (endRange - 1) columnIdx
      = (None, bufferSet)).
  { unfold SlotAllocator.replaceFurthestValuePosition.
    rewrite furthest_None by done. done. }
  assert (Hresult : result = SlotAllocator.getNewPositionForValue bufferSet columnIdx).
  { subst result. unfold addColumnToBuffer, SlotAllocator.getValuePosition.
    rewrite Hnone. destruct (Z.leb_spec maxBufferSize
                               (Z.of_nat (SlotAllocator.getSize bufferSet))); [|lia].
    rewrite Hrequest. done. }
  split; [done|]. split; [done|]. rewrite Hresult.
  unfold SlotAllocator.getNewPositionForValue, SlotAllocator.getValuePosition,
    SlotAllocator.getSize in *. simpl.
  rewrite lookup_insert_eq, map_size_insert_None by done.
  split; [done|]. split; [done|]. lia.
Qed.

(** C7, with one tracked column inside the window and a capacity of one. *)
Lemma addColumnToBuffer_no_candidate_witness :
  let result := addColumnToBuffer 2 {[1 := 0%nat]} 1 3 1 in
  SlotAllocator.replaceFurthestValuePosition {[1 := 0%nat]} 1 (3 - 1) 2
    = (None, {[1 := 0%nat]}) /\
  result = SlotAllocator.getNewPositionForValue {[1 := 0%nat]} 2 /\
  SlotAllocator.getValuePosition result.2 2 = Some result.1 /\
  SlotAllocator.getSize result.2 = S (SlotAllocator.getSize {[1 := 0%nat]}) /\
  1 < Z.of_nat (SlotAllocator.getSize result.2).
Proof.
  apply (addColumnToBuffer_no_candidate 2 {[1 := 0%nat]} 1 3 1).
  - reflexivity.
  - vm_compute. discriminate.
  - intros value position. unfold SlotAllocator.getValuePosition.
    rewrite lookup_singleton. case_decide; [lia|discriminate].
Defined.

(** C8, as stated, fails: three columns of 100, 100 and 300px in a 250px
    viewport.  The first call shows columns 0 to 2 in slots 0 to 2; the
    second call, anchored at column 2, has a buffer span of one column, which
    stays in slot 2, so [columnsToRender] has length 3. *)
Lemma columnsToRender_length_counterexample :
  exists state1 state2 columnRange,
    computeRenderedColumns threeColumns (forwardAnchor 0 0) = Some state1 /\
    calculateRenderedColumnRange state1 (forwardAnchor 2 0) = Some (state2, columnRange) /\
    let after := computeRenderedColumnOffsets state2 columnRange (scrolling state2) in
    endBufferCol columnRange - firstBufferCol columnRange = 1 /\
    columnsToRender after = [None; None; Some 2] /\
    ~ (Z.of_nat (length (columnsToRender after))
       <= endBufferCol columnRange - firstBufferCol columnRange).
Proof.
  eexists _, _, _. split; [vm_compute; reflexivity|].
  split; [vm_compute; reflexivity|].
  vm_compute. split; [reflexivity|]. split; [reflexivity|]. intros H. apply H. reflexivity.
Qed.

(** C8, amended.  After a call of [computeRenderedColumnOffsets] on a
    well-formed allocator and an ordered range, [columnsToRender] holds at
    most as many columns as the buffer span has, and its length is at most
    the allocator's tracked count; on an empty allocator the length is at
    most the buffer span size. *)
Theorem computeRenderedColumnOffsets_columnsToRender_size state columnRange viewportOnly :
  SlotAllocator.wf (columnBufferSet state) ->
  firstBufferCol columnRange <= firstViewportCol columnRange ->
  firstViewportCol columnRange <= endViewportCol columnRange ->
  endViewportCol columnRange <= endBufferCol columnRange ->
  let after := computeRenderedColumnOffsets state columnRange viewportOnly in
  let span := endBufferCol columnRange - firstBufferCol columnRange in
  Z.of_nat (filledSlots (columnsToRender after)) <= span /\
  (length (columnsToRender after) <= SlotAllocator.getSize (columnBufferSet after))%nat /\
  (columnBufferSet state = ∅ -> Z.of_nat (length (columnsToRender after)) <= span).
Proof.
  intros Hwf Hfirst Hview Hend after span. subst after span.
  destruct (decide (endBufferCol columnRange - firstBufferCol columnRange = 0))
    as [Hzero|Hspan].
  { unfold computeRenderedColumnOffsets. rewrite Hzero. simpl.
    unfold SlotAllocator.getSize. lia. }
  rewrite computeRenderedColumnOffsets_run by done.
  assert (Hwindow : (windowOf columnRange viewportOnly).2
                    - (windowOf columnRange viewportOnly).1
                    <= endBufferCol columnRange - firstBufferCol columnRange).
  { unfold windowOf. destruct viewportOnly; simpl; lia. }
  destruct (windowOf columnRange viewportOnly) as [startIdx endIdx].
  simpl in *.
  destruct (offsetsLoop_sizes (columnOffsetIntervalTree state) startIdx endIdx
              (endBufferCol columnRange - firstBufferCol columnRange)
              (Z.to_nat (endIdx - startIdx)) startIdx
              (OffsetStore.sumUntil (columnOffsetIntervalTree state) startIdx)
              [] ∅ (columnBufferSet state) Hwf)
    as (Hlength & Hfilled & Hsize); [simpl; lia|].
  simpl in Hfilled. unfold SlotAllocator.getSize.
  split; [lia|]. split; [done|].
  intros Hempty.
  assert (size (columnBufferSet state) = 0%nat) by (rewrite Hempty; apply map_size_empty).
  lia.
Qed.

(** C8 amended, at a second call whose window has shrunk to column 2. *)
Lemma computeRenderedColumnOffsets_columnsToRender_size_witness :
  let range1 :=
    {| endBufferCol := 3; endViewportCol := 3; firstBufferCol := 0; firstViewportCol := 0 |} in
  let range2 :=
    {| endBufferCol := 3; endViewportCol := 3; firstBufferCol := 2; firstViewportCol := 2 |} in
  let state := computeRenderedColumnOffsets threeColumns range1 false in
  let after := computeRenderedColumnOffsets state range2 false in
  Z.of_nat (filledSlots (columnsToRender after)) <= 3 - 2 /\
  (length (columnsToRender after) <= SlotAllocator.getSize (columnBufferSet after))%nat /\
  (columnBufferSet state = ∅ -> Z.of_nat (length (columnsToRender after)) <= 3 - 2).
Proof.
  intros range1 range2 state.
  apply (computeRenderedColumnOffsets_columnsToRender_size state range2 false).
  - destruct (computeRenderedColumnOffsets_slots threeColumns range1 false wf_empty)
      as [Hwf _]; [vm_compute; discriminate|exact Hwf].
  - vm_compute. discriminate.
  - vm_compute. discriminate.
  - vm_compute. discriminate.
Defined.





(** ** Further properties of the range calculator *)

(** What measuring one column does. *)
Lemma updateColumnWidth_Some state columnIdx state' w :
  updateColumnWidth state columnIdx = Some (state', w) ->
  0 <= columnIdx < columnCountOf state /\
  w = widthAt (scrollableColumns (columnWidths state)) columnIdx /\
  state' = set_columnOffsetIntervalTree
             (OffsetStore.set (columnOffsetIntervalTree state) columnIdx w) state.
Proof.
  unfold updateColumnWidth, widthAt, columnCountOf.
  destruct (Z.ltb_spec columnIdx 0); [done|].
  destruct (scrollableColumns (columnWidths state) !! Z.to_nat columnIdx) as [c|] eqn:Hc;
    [|done].
  simpl. intros [= <- <-]. apply lookup_lt_Some in Hc. split; [lia|done].
Qed.

Lemma updateColumnWidth_sameButTree state columnIdx state' w :
  updateColumnWidth state columnIdx = Some (state', w) -> sameButTree state state'.
Proof. intros (_ & _ & ->)%updateColumnWidth_Some. done. Qed.

Lemma walkViewport_sameButTree fuel columnCount available step :
  forall state columnIdx endIdy totalWidth result,
  walkViewport fuel columnCount available step state columnIdx endIdy totalWidth
    = Some result ->
  sameButTree state result.1.1.
Proof.
  induction fuel as [|fuel IH]; intros state columnIdx endIdy totalWidth result; [done|].
  unfold walkViewport; fold walkViewport.
  destruct ((columnIdx <? columnCount) && (0 <=? columnIdx) && (totalWidth <? available)).
  - destruct (updateColumnWidth state columnIdx) as [[state1 w]|] eqn:Hupdate; [|done].
    simpl. intros Hrun. apply IH in Hrun.
    eapply sameButTree_trans; [|exact Hrun]. by eapply updateColumnWidth_sameButTree.
  - intros [= <-]. apply sameButTree_refl.
Qed.

Lemma walkBuffer_sameButTree n : forall state columnIdx state',
  walkBuffer n state columnIdx = Some state' -> sameButTree state state'.
Proof.
  induction n as [|n IH]; intros state columnIdx state'; simpl.
  - intros [= <-]. apply sameButTree_refl.
  - destruct (updateColumnWidth state columnIdx) as [[state1 w]|] eqn:Hupdate; [|done].
    simpl. intros Hrun. apply IH in Hrun.
    eapply sameButTree_trans; [|exact Hrun]. by eapply updateColumnWidth_sameButTree.
Qed.

(** A result of the range calculator is the walked state with the span
    fields written. *)
Lemma calculateRenderedColumnRange_walked state columnAnchor state' columnRange :
  calculateRenderedColumnRange state columnAnchor = Some (state', columnRange) ->
  exists walked offset,
    sameButTree state walked /\
    state' = set_columnSpan (firstViewportCol columnRange) (endViewportCol columnRange)
               offset walked.
Proof.
  unfold calculateRenderedColumnRange.
  destruct ((availableScrollWidth (columnWidths state) =? 0) ||
            (Z.of_nat (length (scrollableColumns (columnWidths state))) =? 0)).
  { intros [= <- <-]. exists state, 0. split; [apply sameButTree_refl|done]. }
  set (columnCount := Z.of_nat (length (scrollableColumns (columnWidths state)))).
  set (clamped := if geCount (firstIndex columnAnchor) columnCount ||
                     geCount (lastIndex columnAnchor) columnCount
                  then Some (columnCount - 1) else lastIndex columnAnchor).
  assert (Hrest : forall step startIdy totalWidth offset,
    ('(state1, endIdy, total) ←
       walkViewport
         (S (Z.to_nat columnCount))
         columnCount
         (availableScrollWidth (columnWidths state)) step state startIdy startIdy totalWidth;
     state2 ← walkBuffer
       (Z.to_nat (Z.min startIdy endIdy
                  - Z.max (Z.min startIdy endIdy - bufferColumnCount) 0))
       state1 (Z.max (Z.min startIdy endIdy - bufferColumnCount) 0);
     state3 ← walkBuffer
       (Z.to_nat (Z.min (Z.max startIdy endIdy + 1 + bufferColumnCount)
                    columnCount
                  - (Z.max startIdy endIdy + 1)))
       state2 (Z.max startIdy endIdy + 1);
     firstOffset ← offset total;
     Some (set_columnSpan (Z.min startIdy endIdy) (Z.max startIdy endIdy + 1)
             firstOffset state3,
           {| endBufferCol :=
                Z.min (Z.max startIdy endIdy + 1 + bufferColumnCount)
                  columnCount;
              endViewportCol := Z.max startIdy endIdy + 1;
              firstBufferCol := Z.max (Z.min startIdy endIdy - bufferColumnCount) 0;
              firstViewportCol := Z.min startIdy endIdy |}))
    = Some (state', columnRange) ->
    exists walked offset,
      sameButTree state walked /\
      state' = set_columnSpan (firstViewportCol columnRange) (endViewportCol columnRange)
                 offset walked).
  { intros step startIdy totalWidth offset.
    destruct (walkViewport _ _ _ _ _ _ _ _) as [[[state1 endIdy] total]|] eqn:Hwalk;
      [|done].
    apply walkViewport_sameButTree in Hwalk. simpl in Hwalk. simpl.
    destruct (walkBuffer _ state1 _) as [state2|] eqn:Hlead; [|done].
    apply walkBuffer_sameButTree in Hlead. simpl.
    destruct (walkBuffer _ state2 _) as [state3|] eqn:Htrail; [|done].
    apply walkBuffer_sameButTree in Htrail. simpl.
    destruct (offset total) as [firstOffset|]; [|done].
    simpl. intros [= <- <-]. simpl.
    exists state3, firstOffset. split; [|done].
    exact (sameButTree_trans _ _ _ (sameButTree_trans _ _ _ Hwalk Hlead) Htrail). }
  destruct clamped as [l|].
  - simpl. apply (Hrest (-1) l 0 (fun total => Some (Z.min (_ - total) 0))).
  - destruct (firstIndex columnAnchor) as [i|]; [|done].
    destruct (firstOffset columnAnchor) as [o|]; [|done].
    simpl. apply (Hrest 1 i o (fun _ => Some o)).
Qed.

Lemma calculateRenderedColumnRange_writes state columnAnchor state' columnRange :
  calculateRenderedColumnRange state columnAnchor = Some (state', columnRange) ->
  firstColumnIndex state' = firstViewportCol columnRange /\
  endColumnIndex state' = endViewportCol columnRange /\
  scrollX state' = scrollX state /\
  scrolling state' = scrolling state /\
  columnOffsets state' = columnOffsets state /\
  columnsToRender state' = columnsToRender state /\
  columnBufferSet state' = columnBufferSet state /\
  columnLayout state' = columnLayout state.
Proof.
  intros (walked & offset & Hsame & ->)%calculateRenderedColumnRange_walked.
  simpl. rewrite Hsame. done.
Qed.

(** The range calculator writes the span fields and the Offset Store and
    nothing else, whatever the anchor. *)
Theorem calculateRenderedColumnRange_frame state columnAnchor state' columnRange :
  calculateRenderedColumnRange state columnAnchor = Some (state', columnRange) ->
  firstColumnIndex state' = firstViewportCol columnRange /\
  endColumnIndex state' = endViewportCol columnRange /\
  scrollX state' = scrollX state /\
  scrolling state' = scrolling state /\
  columnOffsets state' = columnOffsets state /\
  columnsToRender state' = columnsToRender state /\
  columnBufferSet state' = columnBufferSet state /\
  columnLayout state' = columnLayout state.
Proof.
  intros (walked & offset & Hsame & ->)%calculateRenderedColumnRange_walked.
  simpl. rewrite Hsame. done.
Qed.

(** The frame, at the five-column example. *)
Lemma calculateRenderedColumnRange_frame_witness :
  exists state' columnRange,
    calculateRenderedColumnRange fiveColumns (backwardAnchor 4) = Some (state', columnRange) /\
    firstColumnIndex state' = firstViewportCol columnRange /\
    endColumnIndex state' = endViewportCol columnRange /\
    scrollX state' = scrollX fiveColumns /\
    scrolling state' = scrolling fiveColumns /\
    columnOffsets state' = columnOffsets fiveColumns /\
    columnsToRender state' = columnsToRender fiveColumns /\
    columnBufferSet state' = columnBufferSet fiveColumns /\
    columnLayout state' = columnLayout fiveColumns.
Proof.
  eexists _, _. split; [vm_compute; reflexivity|].
  eapply (calculateRenderedColumnRange_frame fiveColumns (backwardAnchor 4)).
  vm_compute. reflexivity.
Defined.

(** Once [lastIndex] is defined after the clamp, it alone decides the
    result: the anchor behaves as the backward anchor at that column.  In
    particular an anchor that points past the last column behaves as the
    backward anchor at the last column. *)
Theorem calculateRenderedColumnRange_lastIndex_decides state columnAnchor l :
  clampedLastIndex state columnAnchor = Some l ->
  calculateRenderedColumnRange state columnAnchor
  = calculateRenderedColumnRange state (backwardAnchor l).
Proof.
  intros Hl.
  destruct (decide (degenerate state)) as [Hd|Hnd].
  { by rewrite !calculateRenderedColumnRange_degenerate. }
  assert (Hcount : 0 < columnCountOf state).
  { unfold degenerate in Hnd. unfold columnCountOf in *. lia. }
  pose proof (clampedLastIndex_below _ _ _ Hl Hcount) as Hlt.
  assert (Hl' : clampedLastIndex state (backwardAnchor l) = Some l).
  { unfold clampedLastIndex, geCount. simpl.
    destruct (Z.leb_spec (columnCountOf state) l); [lia|done]. }
  unfold calculateRenderedColumnRange. fold (columnCountOf state).
  unfold clampedLastIndex in Hl, Hl'. rewrite Hl, Hl'. done.
Qed.

(** An anchor past the last of five columns, with a stray offset. *)
Lemma calculateRenderedColumnRange_lastIndex_decides_witness :
  calculateRenderedColumnRange fiveColumns
    {| firstIndex := Some 9; firstOffset := Some (-40); lastIndex := None |}
  = calculateRenderedColumnRange fiveColumns (backwardAnchor 4).
Proof.
  apply (calculateRenderedColumnRange_lastIndex_decides fiveColumns
           {| firstIndex := Some 9; firstOffset := Some (-40); lastIndex := None |} 4).
  reflexivity.
Defined.

(** Forward anchor inside the column list: the viewport starts at
    [firstIndex] and always holds that column.  When the offset leaves room
    the span is the shortest one whose width, shifted by the offset, reaches
    the available width, or it runs to the last column. *)
Theorem calculateRenderedColumnRange_forward_fill state columnAnchor i o :
  ~ degenerate state ->
  clampedLastIndex state columnAnchor = None ->
  firstIndex columnAnchor = Some i -> firstOffset columnAnchor = Some o -> 0 <= i ->
  let columns := scrollableColumns (columnWidths state) in
  let available := availableScrollWidth (columnWidths state) in
  exists state' columnRange,
    calculateRenderedColumnRange state columnAnchor = Some (state', columnRange) /\
    firstViewportCol columnRange = i /\
    i < endViewportCol columnRange <= columnCountOf state /\
    (available <= o -> endViewportCol columnRange = i + 1) /\
    (o < available ->
     (endViewportCol columnRange = columnCountOf state \/
      available <= o + spanWidth columns i (endViewportCol columnRange)) /\
     forall j, i <= j < endViewportCol columnRange ->
               o + spanWidth columns i j < available).
Proof.
  intros Hnd Hl Hi Ho Hi0 columns available.
  pose proof (clampedLastIndex_forward _ _ _ Hl Hi) as Hlt.
  destruct (calculateRenderedColumnRange_forward state columnAnchor i o Hnd Hl Hi Ho Hi0)
    as (state' & stop & Hrange & _ & Hstop & Hexit & Hcont).
  cbv zeta in Hrange, Hexit, Hcont. fold columns available in Hexit, Hcont.
  eexists _, _. split; [exact Hrange|]. simpl.
  assert (Hempty : spanWidth columns i i = 0) by (apply sumRange_empty; lia).
  destruct (Z.eqb_spec stop i) as [Heq|Hne].
  - assert (Hfull : available <= o).
    { destruct Hexit as [Hexit|Hexit]; [lia|]. rewrite Heq, Hempty in Hexit. lia. }
    split; [done|]. split; [lia|]. split; [lia|]. lia.
  - assert (Hroom : o < available).
    { specialize (Hcont i). rewrite Hempty in Hcont. lia. }
    replace (Z.max i (stop - 1) + 1) with stop by lia.
    split; [done|]. split; [lia|]. split; [lia|]. done.
Qed.

(** The forward fill, at a forward anchor with a sub-column shift. *)
Lemma calculateRenderedColumnRange_forward_fill_witness :
  exists state' columnRange,
    calculateRenderedColumnRange fiveColumns (forwardAnchor 1 (-30))
      = Some (state', columnRange) /\
    firstViewportCol columnRange = 1 /\
    1 < endViewportCol columnRange <= 5 /\
    (250 <= -30 -> endViewportCol columnRange = 1 + 1) /\
    (-30 < 250 ->
     (endViewportCol columnRange = 5 \/
      250 <= -30 + spanWidth (scrollableColumns (columnWidths fiveColumns)) 1
                     (endViewportCol columnRange)) /\
     forall j, 1 <= j < endViewportCol columnRange ->
               -30 + spanWidth (scrollableColumns (columnWidths fiveColumns)) 1 j < 250).
Proof.
  apply (calculateRenderedColumnRange_forward_fill fiveColumns (forwardAnchor 1 (-30)) 1 (-30)).
  - vm_compute. intros [H|H]; discriminate.
  - reflexivity.
  - reflexivity.
  - reflexivity.
  - lia.
Defined.

(** Backward anchor: the viewport ends with column [l].  With a positive
    available width the span is the shortest one that ends at [l] and
    reaches the available width, or it runs back to column 0. *)
Theorem calculateRenderedColumnRange_backward_fill state columnAnchor l :
  ~ degenerate state ->
  clampedLastIndex state columnAnchor = Some l -> 0 <= l ->
  let columns := scrollableColumns (columnWidths state) in
  let available := availableScrollWidth (columnWidths state) in
  exists state' columnRange,
    calculateRenderedColumnRange state columnAnchor = Some (state', columnRange) /\
    endViewportCol columnRange = l + 1 /\
    0 <= firstViewportCol columnRange <= l /\
    (available < 0 -> firstViewportCol columnRange = l) /\
    (0 < available ->
     (firstViewportCol columnRange = 0 \/
      available <= spanWidth columns (firstViewportCol columnRange) (l + 1)) /\
     forall j, firstViewportCol columnRange < j <= l ->
               spanWidth columns j (l + 1) < available).
Proof.
  intros Hnd Hl Hl0 columns available.
  destruct (calculateRenderedColumnRange_backward state columnAnchor l Hnd Hl Hl0)
    as (state' & stop & Hrange & _ & Hstop & Hexit & Hcont & _).
  cbv zeta in Hrange, Hexit, Hcont. fold columns available in Hexit, Hcont.
  eexists _, _. split; [exact Hrange|]. simpl.
  assert (Hempty : spanWidth columns (l + 1) (l + 1) = 0) by (apply sumRange_empty; lia).
  destruct (Z.eqb_spec stop l) as [Heq|Hne].
  - assert (Hfull : available <= 0).
    { destruct Hexit as [Hexit|Hexit]; [lia|]. rewrite Heq, Hempty in Hexit. lia. }
    split; [done|]. split; [lia|]. split; [lia|]. lia.
  - assert (Hroom : 0 < available).
    { specialize (Hcont l). rewrite Hempty in Hcont. lia. }
    replace (Z.min l (stop + 1)) with (stop + 1) by lia.
    split; [done|]. split; [lia|]. split; [lia|]. intros _. split.
    + destruct Hexit as [Hexit|Hexit]; [left; lia|by right].
    + intros j Hj. specialize (Hcont (j - 1)).
      replace (j - 1 + 1) with j in Hcont by lia. apply Hcont. lia.
Qed.

(** The backward fill, at the last of five columns. *)
Lemma calculateRenderedColumnRange_backward_fill_witness :
  exists state' columnRange,
    calculateRenderedColumnRange fiveColumns (backwardAnchor 4) = Some (state', columnRange) /\
    endViewportCol columnRange = 4 + 1 /\
    0 <= firstViewportCol columnRange <= 4 /\
    (250 < 0 -> firstViewportCol columnRange = 4) /\
    (0 < 250 ->
     (firstViewportCol columnRange = 0 \/
      250 <= spanWidth (scrollableColumns (columnWidths fiveColumns))
               (firstViewportCol columnRange) (4 + 1)) /\
     forall j, firstViewportCol columnRange < j <= 4 ->
               spanWidth (scrollableColumns (columnWidths fiveColumns)) j (4 + 1) < 250).
Proof.
  apply (calculateRenderedColumnRange_backward_fill fiveColumns (backwardAnchor 4) 4).
  - vm_compute. intros [H|H]; discriminate.
  - reflexivity.
  - lia.
Defined.

(** ** What the walk records in the Offset Store *)

Lemma walkViewport_unfold fuel columnCount available step state columnIdx endIdy totalWidth :
  columnCount = columnCountOf state ->
  0 <= columnIdx < columnCount -> totalWidth < available ->
  let w := widthAt (scrollableColumns (columnWidths state)) columnIdx in
  walkViewport (S fuel) columnCount available step state columnIdx endIdy totalWidth
  = walkViewport fuel columnCount available step
      (set_columnOffsetIntervalTree
         (OffsetStore.set (columnOffsetIntervalTree state) columnIdx w) state)
      (columnIdx + step) columnIdx (totalWidth + w).
Proof.
  intros -> Hidx Ht w. unfold walkViewport; fold walkViewport.
  destruct ((columnIdx <? columnCountOf state) && (0 <=? columnIdx) &&
            (totalWidth <? available)) eqn:E.
  2:{ apply andb_false_iff in E as [E|E]; [apply andb_false_iff in E as [E|E]|]; lia. }
  rewrite updateColumnWidth_inside by done. done.
Qed.

Lemma walkViewport_halt fuel columnCount available step state columnIdx endIdy totalWidth :
  columnIdx < 0 \/ columnCount <= columnIdx \/ available <= totalWidth ->
  walkViewport (S fuel) columnCount available step state columnIdx endIdy totalWidth
  = Some (state, endIdy, totalWidth).
Proof.
  intros H. unfold walkViewport; fold walkViewport.
  destruct ((columnIdx <? columnCount) && (0 <=? columnIdx) &&
            (totalWidth <? available)) eqn:E; [|done].
  apply andb_prop in E as [E E3]. apply andb_prop in E as [E1 E2]. lia.
Qed.

Section WalkStore.

Variable columns : list Column.
Variable available : Z.

Let columnCount := Z.of_nat (length columns).
Let W := widthAt columns.

(** A walk by [step] visits the columns from the start column to [endIdy];
    it records the measured width of each and leaves the rest of the store
    as it was. *)
Lemma walkViewport_store step fuel : forall state columnIdx endIdy totalWidth state' endIdy' total,
  step = 1 \/ step = -1 ->
  scrollableColumns (columnWidths state) = columns ->
  walkViewport fuel columnCount available step state columnIdx endIdy totalWidth
    = Some (state', endIdy', total) ->
  0 <= columnIdx < columnCount -> totalWidth < available ->
  0 <= endIdy' < columnCount /\
  (step = 1 -> columnIdx <= endIdy') /\ (step = -1 -> endIdy' <= columnIdx) /\
  (forall j, Z.min columnIdx endIdy' <= j <= Z.max columnIdx endIdy' ->
     columnOffsetIntervalTree state' !! j = Some (W j)) /\
  (forall j, ~ (Z.min columnIdx endIdy' <= j <= Z.max columnIdx endIdy') ->
     columnOffsetIntervalTree state' !! j = columnOffsetIntervalTree state !! j).
Proof.
  intros state columnIdx endIdy totalWidth state' endIdy' total Hstep.
  revert state columnIdx endIdy totalWidth.
  induction fuel as [|fuel IH]; intros state columnIdx endIdy totalWidth Hcolumns Hrun Hidx Ht;
    [done|].
  rewrite walkViewport_unfold in Hrun
    by (try done; unfold columnCountOf; by rewrite Hcolumns).
  rewrite Hcolumns in Hrun. fold W in Hrun.
  set (state1 := set_columnOffsetIntervalTree _ state) in Hrun.
  assert (Htree1 : forall j, columnOffsetIntervalTree state1 !! j =
                     if decide (j = columnIdx) then Some (W columnIdx)
                     else columnOffsetIntervalTree state !! j).
  { intros j. subst state1. simpl. unfold OffsetStore.set.
    rewrite lookup_insert. repeat case_decide; congruence. }
  destruct (decide (0 <= columnIdx + step < columnCount /\
                    totalWidth + W columnIdx < available)) as [[Hnext Hroom]|Hstop].
  - destruct (IH state1 (columnIdx + step) columnIdx (totalWidth + W columnIdx))
      as (Hend & Hup & Hdown & Hin & Hout); [done|done|done|done|].
    split; [done|]. split; [lia|]. split; [lia|]. split.
    + intros j Hj. destruct (decide (j = columnIdx)) as [->|Hne].
      * rewrite Hout by lia. rewrite Htree1. by case_decide.
      * apply Hin. lia.
    + intros j Hj. rewrite Hout by lia. rewrite Htree1. case_decide; [lia|done].
  - destruct fuel as [|fuel]; [done|].
    rewrite walkViewport_halt in Hrun by lia.
    injection Hrun as <- <- <-.
    rewrite Z.min_id, Z.max_id.
    split; [done|]. split; [lia|]. split; [lia|]. split.
    + intros j Hj. rewrite Htree1. case_decide; [subst; done|lia].
    + intros j Hj. rewrite Htree1. case_decide; [lia|done].
Qed.

End WalkStore.

(** The range calculator in terms of the result of its walk: the two buffer
    loops make no step. *)
Lemma calculateRenderedColumnRange_of_walk state columnAnchor step startIdy total offset
    walked endIdy totalWidth :
  ~ degenerate state ->
  (clampedLastIndex state columnAnchor = Some startIdy /\ step = -1 /\ total = 0 /\
   offset = Z.min (availableScrollWidth (columnWidths state) - totalWidth) 0) \/
  (clampedLastIndex state columnAnchor = None /\ step = 1 /\
   firstIndex columnAnchor = Some startIdy /\ firstOffset columnAnchor = Some total /\
   offset = total) ->
  walkViewport (S (Z.to_nat (columnCountOf state))) (columnCountOf state)
    (availableScrollWidth (columnWidths state)) step state startIdy startIdy total
    = Some (walked, endIdy, totalWidth) ->
  calculateRenderedColumnRange state columnAnchor =
    Some (set_columnSpan (Z.min startIdy endIdy) (Z.max startIdy endIdy + 1) offset walked,
          {| endBufferCol := Z.min (Z.max startIdy endIdy + 1) (columnCountOf state);
             endViewportCol := Z.max startIdy endIdy + 1;
             firstBufferCol := Z.max (Z.min startIdy endIdy) 0;
             firstViewportCol := Z.min startIdy endIdy |}).
Proof.
  intros Hnd Hcase Hrun.
  unfold calculateRenderedColumnRange. fold (columnCountOf state).
  destruct ((availableScrollWidth (columnWidths state) =? 0) || (columnCountOf state =? 0))
    eqn:E; [apply degenerate_test in E; done|].
  unfold clampedLastIndex in Hcase.
  destruct Hcase as [(Hl & -> & -> & ->)|(Hl & -> & Hi & Ho & ->)];
    rewrite Hl; [|rewrite Hi, Ho]; simpl;
    rewrite Hrun; simpl;
    unfold bufferColumnCount;
    replace (Z.to_nat (Z.min startIdy endIdy - Z.max (Z.min startIdy endIdy - 0) 0))
      with 0%nat by lia;
    replace (Z.to_nat (Z.min (Z.max startIdy endIdy + 1 + 0) (columnCountOf state)
                       - (Z.max startIdy endIdy + 1)))
      with 0%nat by lia;
    simpl; rewrite Z.sub_0_r, Z.add_0_r; done.
Qed.

Lemma calculateRenderedColumnRange_records state columnAnchor state' columnRange :
  ~ degenerate state -> anchorWellFormed state columnAnchor ->
  walkStarts state columnAnchor ->
  calculateRenderedColumnRange state columnAnchor = Some (state', columnRange) ->
  (forall j, firstViewportCol columnRange <= j < endViewportCol columnRange ->
     columnOffsetIntervalTree state' !! j
     = Some (widthAt (scrollableColumns (columnWidths state)) j)) /\
  (forall j, ~ (firstViewportCol columnRange <= j < endViewportCol columnRange) ->
     columnOffsetIntervalTree state' !! j = columnOffsetIntervalTree state !! j).
Proof.
  intros Hnd Hwf Hstarts Hrange.
  assert (Hcount : 0 < columnCountOf state).
  { unfold degenerate in Hnd. unfold columnCountOf in *. lia. }
  unfold anchorWellFormed in Hwf. unfold walkStarts in Hstarts.
  destruct (clampedLastIndex state columnAnchor) as [l|] eqn:Hl.
  - pose proof (clampedLastIndex_below _ _ _ Hl Hcount) as Hlt.
    destruct (walkViewport_backward (columnLayout state) (S (Z.to_nat (columnCountOf state)))
                state l l 0 eq_refl) as (walked & stop & Hrun & _).
    { unfold columnCountOf, columnWidths in Hlt. lia. }
    { lia. }
    destruct (walkViewport_store (scrollableColumns (columnWidths state))
                (availableScrollWidth (columnWidths state)) (-1) _ _ _ _ _ _ _ _
                (or_intror eq_refl) eq_refl Hrun)
      as (Hend & _ & Hdown & Hin & Hout); [unfold columnCountOf in Hlt; lia|done|].
    specialize (Hdown eq_refl).
    erewrite (calculateRenderedColumnRange_of_walk state columnAnchor (-1) l 0) in Hrange;
      [|done|left; done|exact Hrun].
    injection Hrange as <- <-. simpl. split.
    + intros j Hj. apply Hin. lia.
    + intros j Hj. apply Hout. lia.
  - destruct (firstIndex columnAnchor) as [i|] eqn:Hi; [|done].
    destruct (firstOffset columnAnchor) as [o|] eqn:Ho; [|done].
    pose proof (clampedLastIndex_forward _ _ _ Hl Hi) as Hlt.
    destruct (walkViewport_forward (columnLayout state) (S (Z.to_nat (columnCountOf state)))
                state i i o eq_refl) as (walked & stop & Hrun & _).
    { unfold columnCountOf, columnWidths in Hlt. lia. }
    { unfold columnCountOf, columnWidths in *. lia. }
    destruct (walkViewport_store (scrollableColumns (columnWidths state))
                (availableScrollWidth (columnWidths state)) 1 _ _ _ _ _ _ _ _
                (or_introl eq_refl) eq_refl Hrun)
      as (Hend & Hup & _ & Hin & Hout); [unfold columnCountOf in Hlt; lia|done|].
    specialize (Hup eq_refl).
    erewrite (calculateRenderedColumnRange_of_walk state columnAnchor 1 i o) in Hrange;
      [|done|right; done|exact Hrun].
    injection Hrange as <- <-. simpl. split.
    + intros j Hj. apply Hin. lia.
    + intros j Hj. apply Hout. lia.
Qed.

(** After the range calculator, when the walk makes a step: the store holds
    the measured width of every viewport column and is unchanged at every
    other index. *)
Theorem calculateRenderedColumnRange_store state columnAnchor :
  ~ degenerate state -> anchorWellFormed state columnAnchor ->
  walkStarts state columnAnchor ->
  exists state' columnRange,
    calculateRenderedColumnRange state columnAnchor = Some (state', columnRange) /\
    (forall j, firstViewportCol columnRange <= j < endViewportCol columnRange ->
       columnOffsetIntervalTree state' !! j
       = Some (widthAt (scrollableColumns (columnWidths state)) j)) /\
    (forall j, ~ (firstViewportCol columnRange <= j < endViewportCol columnRange) ->
       columnOffsetIntervalTree state' !! j = columnOffsetIntervalTree state !! j).
Proof.
  intros Hnd Hwf Hstarts.
  destruct (calculateRenderedColumnRange_shape state columnAnchor (or_intror Hwf))
    as (state' & columnRange & Hrange & _).
  exists state', columnRange. split; [exact Hrange|].
  by apply (calculateRenderedColumnRange_records state columnAnchor).
Qed.

(** The store after the backward anchor of the five-column example. *)
Lemma calculateRenderedColumnRange_store_witness :
  exists state' columnRange,
    calculateRenderedColumnRange fiveColumns (backwardAnchor 4) = Some (state', columnRange) /\
    (forall j, firstViewportCol columnRange <= j < endViewportCol columnRange ->
       columnOffsetIntervalTree state' !! j
       = Some (widthAt (scrollableColumns (columnWidths fiveColumns)) j)) /\
    (forall j, ~ (firstViewportCol columnRange <= j < endViewportCol columnRange) ->
       columnOffsetIntervalTree state' !! j = columnOffsetIntervalTree fiveColumns !! j).
Proof.
  apply (calculateRenderedColumnRange_store fiveColumns (backwardAnchor 4)).
  - vm_compute. intros [H|H]; discriminate.
  - vm_compute. discriminate.
  - vm_compute. reflexivity.
Defined.

(** ** Further properties of the offset and slot assignor *)

(** [columnOffsets] has an entry exactly for the columns of the window;
    entries of earlier calls are gone. *)
Theorem computeRenderedColumnOffsets_domain state columnRange viewportOnly j :
  let window := windowOf columnRange viewportOnly in
  is_Some (columnOffsets (computeRenderedColumnOffsets state columnRange viewportOnly) !! j)
  <-> endBufferCol columnRange - firstBufferCol columnRange <> 0 /\
      window.1 <= j < window.2.
Proof.
  intros window.
  destruct (decide (endBufferCol columnRange - firstBufferCol columnRange = 0))
    as [Hzero|Hspan].
  { unfold computeRenderedColumnOffsets. rewrite Hzero. simpl.
    rewrite lookup_empty. split; [by intros [x Hx]|by intros [H _]]. }
  rewrite computeRenderedColumnOffsets_run by done.
  subst window. destruct (windowOf columnRange viewportOnly) as [startIdx endIdx].
  simpl.
  destruct (offsetsLoop_offsets (columnOffsetIntervalTree state) startIdx endIdx
              (endBufferCol columnRange - firstBufferCol columnRange)
              (Z.to_nat (endIdx - startIdx)) startIdx
              (OffsetStore.sumUntil (columnOffsetIntervalTree state) startIdx)
              [] ∅ (columnBufferSet state))
    as [Hin Hout].
  split.
  - intros Hsome. split; [done|].
    destruct (decide (startIdx <= j < endIdx)) as [Hj|Hj]; [done|].
    rewrite Hout, lookup_empty in Hsome by lia. by destruct Hsome.
  - intros [_ Hj]. rewrite Hin by lia. eauto.
Qed.

(** ** Properties of the whole reducer *)

(** The result of the reducer for a well-formed anchor on a state that is
    not degenerate, in terms of its two stages. *)
Lemma computeRenderedColumns_stages state columnAnchor :
  ~ degenerate state -> anchorWellFormed state columnAnchor ->
  exists state1 columnRange offset,
    calculateRenderedColumnRange state columnAnchor = Some (state1, columnRange) /\
    firstBufferCol columnRange = firstViewportCol columnRange /\
    endBufferCol columnRange = endViewportCol columnRange /\
    0 <= firstViewportCol columnRange < endViewportCol columnRange /\
    let assigned := computeRenderedColumnOffsets state1 columnRange (scrolling state1) in
    columnOffsets assigned !! firstViewportCol columnRange = Some offset /\
    computeRenderedColumns state columnAnchor =
      Some (set_scrollX (clamp (offset - firstColumnOffset assigned) 0
                               (maxScrollX (columnWidths state)))
                        assigned).
Proof.
  intros Hnd Hwf.
  destruct (calculateRenderedColumnRange_shape state columnAnchor (or_intror Hwf))
    as (state1 & columnRange & Hrange & Hfirst & Hend & Hbounds & _ & _ & Hlt & _).
  specialize (Hlt Hnd).
  destruct (computeRenderedColumnOffsets_first state1 columnRange (scrolling state1))
    as [offset Hoffset]; [done|done|done|].
  exists state1, columnRange, offset.
  split; [done|]. split; [done|]. split; [done|]. split; [lia|]. split; [done|].
  rewrite (computeRenderedColumns_unfold _ _ _ _ Hrange). simpl.
  destruct (Z.eqb_spec (firstViewportCol columnRange) (endViewportCol columnRange)); [lia|].
  rewrite Hoffset. done.
Qed.

(** The offset and slot assignor writes [columnOffsets], [columnsToRender]
    and the Slot Allocator and nothing else. *)
Lemma computeRenderedColumnOffsets_frame state columnRange viewportOnly :
  let after := computeRenderedColumnOffsets state columnRange viewportOnly in
  firstColumnIndex after = firstColumnIndex state /\
  endColumnIndex after = endColumnIndex state /\
  firstColumnOffset after = firstColumnOffset state /\
  scrollX after = scrollX state /\
  scrolling after = scrolling state /\
  columnOffsetIntervalTree after = columnOffsetIntervalTree state /\
  columnLayout after = columnLayout state.
Proof.
  unfold computeRenderedColumnOffsets.
  destruct (endBufferCol columnRange - firstBufferCol columnRange =? 0); [done|].
  destruct (windowOf columnRange viewportOnly) as [startIdx endIdx].
  destruct (offsetsLoop _ _ _ _ _ _ _ _ _ _) as [[columns offsets] bufferSet]. done.
Qed.

(** A walk that makes no step leaves a one-column viewport. *)
Lemma calculateRenderedColumnRange_idle state columnAnchor state1 columnRange :
  ~ degenerate state -> anchorWellFormed state columnAnchor ->
  calculateRenderedColumnRange state columnAnchor = Some (state1, columnRange) ->
  ~ walkStarts state columnAnchor ->
  endViewportCol columnRange = firstViewportCol columnRange + 1.
Proof.
  intros Hnd Hwf Hrange Hidle.
  unfold walkStarts in Hidle. unfold anchorWellFormed in Hwf.
  destruct (clampedLastIndex state columnAnchor) as [l|] eqn:Hl.
  - destruct (calculateRenderedColumnRange_backward state columnAnchor l Hnd Hl Hwf)
      as (state1' & stop & Hrange' & _ & Hstop & _ & Hcont & _).
    rewrite Hrange in Hrange'. injection Hrange' as Hs Hr. rewrite Hr. simpl.
    destruct (Z.eqb_spec stop l) as [Heq|Hne]; [lia|].
    exfalso. specialize (Hcont l). cbv zeta in Hcont. unfold spanWidth in Hcont.
    rewrite sumRange_empty in Hcont by lia. lia.
  - destruct (firstIndex columnAnchor) as [i|] eqn:Hi; [|done].
    destruct (firstOffset columnAnchor) as [o|] eqn:Ho; [|done].
    destruct (calculateRenderedColumnRange_forward state columnAnchor i o Hnd Hl Hi Ho Hwf)
      as (state1' & stop & Hrange' & _ & Hstop & _ & Hcont).
    rewrite Hrange in Hrange'. injection Hrange' as Hs Hr. rewrite Hr. simpl.
    destruct (Z.eqb_spec stop i) as [Heq|Hne]; [lia|].
    exfalso. specialize (Hcont i). cbv zeta in Hcont. unfold spanWidth in Hcont.
    rewrite sumRange_empty in Hcont by lia. lia.
Qed.

(** The stored width of a viewport column that has a right neighbour in the
    viewport is its measured width. *)
Lemma calculateRenderedColumnRange_measured state columnAnchor state1 columnRange i :
  ~ degenerate state -> anchorWellFormed state columnAnchor ->
  calculateRenderedColumnRange state columnAnchor = Some (state1, columnRange) ->
  firstViewportCol columnRange <= i -> i + 1 < endViewportCol columnRange ->
  OffsetStore.get (columnOffsetIntervalTree state1) i
  = widthAt (scrollableColumns (columnWidths state)) i.
Proof.
  intros Hnd Hwf Hrange Hlo Hhi.
  assert (Hstarts : walkStarts state columnAnchor).
  { assert (Hdec : walkStarts state columnAnchor \/ ~ walkStarts state columnAnchor).
    { unfold walkStarts.
      destruct (clampedLastIndex state columnAnchor); [lia|].
      destruct (firstOffset columnAnchor); [lia|tauto]. }
    destruct Hdec as [Hyes|Hno]; [done|].
    pose proof (calculateRenderedColumnRange_idle _ _ _ _ Hnd Hwf Hrange Hno). lia. }
  destruct (calculateRenderedColumnRange_records state columnAnchor state1 columnRange
              Hnd Hwf Hstarts Hrange) as [Hin _].
  unfold OffsetStore.get. rewrite Hin by lia. done.
Qed.

(** After the reducer, the offsets of two neighbouring viewport columns
    differ by the measured width of the left one. *)
Theorem computeRenderedColumns_offsets_by_width state columnAnchor :
  ~ degenerate state -> anchorWellFormed state columnAnchor ->
  exists state',
    computeRenderedColumns state columnAnchor = Some state' /\
    forall i, firstColumnIndex state' <= i -> i + 1 < endColumnIndex state' ->
      exists a b,
        columnOffsets state' !! i = Some a /\ columnOffsets state' !! (i + 1) = Some b /\
        b - a = widthAt (scrollableColumns (columnWidths state)) i.
Proof.
  intros Hnd Hwf.
  destruct (computeRenderedColumns_stages state columnAnchor Hnd Hwf)
    as (state1 & columnRange & offset & Hrange & Hfirst & Hend & Hbounds & _ & Hrun).
  eexists. split; [exact Hrun|]. simpl.
  destruct (calculateRenderedColumnRange_writes _ _ _ _ Hrange) as (Hfi & Hei & _).
  destruct (computeRenderedColumnOffsets_frame state1 columnRange (scrolling state1))
    as (-> & -> & _).
  rewrite Hfi, Hei. intros i Hlo Hhi.
  destruct (offsets_of_window state1 columnRange (scrolling state1)) as [_ Hpairs].
  { lia. }
  { rewrite windowOf_viewport by done. simpl. lia. }
  rewrite windowOf_viewport in Hpairs by done. simpl in Hpairs.
  destruct (Hpairs i Hlo Hhi) as (a & b & Ha & Hb & Hdiff).
  exists a, b. split; [done|]. split; [done|]. rewrite Hdiff.
  by eapply calculateRenderedColumnRange_measured.
Qed.

(** The widths behind the offsets of the five-column example. *)
Lemma computeRenderedColumns_offsets_by_width_witness :
  exists state',
    computeRenderedColumns threeColumns (forwardAnchor 0 0) = Some state' /\
    forall i, firstColumnIndex state' <= i -> i + 1 < endColumnIndex state' ->
      exists a b,
        columnOffsets state' !! i = Some a /\ columnOffsets state' !! (i + 1) = Some b /\
        b - a = widthAt (scrollableColumns (columnWidths threeColumns)) i.
Proof.
  apply (computeRenderedColumns_offsets_by_width threeColumns (forwardAnchor 0 0)).
  - vm_compute. intros [H|H]; discriminate.
  - vm_compute. discriminate.
Defined.

(** After the reducer, [scrollX] is the store's prefix sum up to the first
    viewport column, less the first column offset, passed through [clamp]. *)
Theorem computeRenderedColumns_scrollX_prefix state columnAnchor :
  ~ degenerate state -> anchorWellFormed state columnAnchor ->
  exists state',
    computeRenderedColumns state columnAnchor = Some state' /\
    scrollX state' =
      clamp (OffsetStore.sumUntil (columnOffsetIntervalTree state') (firstColumnIndex state')
             - firstColumnOffset state')
            0 (maxScrollX (columnWidths state)).
Proof.
  intros Hnd Hwf.
  destruct (computeRenderedColumns_stages state columnAnchor Hnd Hwf)
    as (state1 & columnRange & offset & Hrange & Hfirst & Hend & Hbounds & Hoffset & Hrun).
  eexists. split; [exact Hrun|]. simpl.
  destruct (calculateRenderedColumnRange_writes _ _ _ _ Hrange) as (Hfi & _).
  destruct (computeRenderedColumnOffsets_frame state1 columnRange (scrolling state1))
    as (-> & _ & _ & _ & _ & -> & _).
  destruct (offsets_of_window state1 columnRange (scrolling state1)) as [Hstart _].
  { lia. }
  { rewrite windowOf_viewport by done. simpl. lia. }
  rewrite windowOf_viewport in Hstart by done. simpl in Hstart.
  rewrite Hoffset in Hstart. injection Hstart as ->.
  rewrite Hfi. done.
Qed.

(** The scroll offset after a second anchor on the five-column example. *)
Lemma computeRenderedColumns_scrollX_prefix_witness :
  exists state',
    computeRenderedColumns fiveColumns (forwardAnchor 1 (-30)) = Some state' /\
    scrollX state' =
      clamp (OffsetStore.sumUntil (columnOffsetIntervalTree state') (firstColumnIndex state')
             - firstColumnOffset state')
            0 (maxScrollX (columnWidths fiveColumns)).
Proof.
  apply (computeRenderedColumns_scrollX_prefix fiveColumns (forwardAnchor 1 (-30))).
  - vm_compute. intros [H|H]; discriminate.
  - vm_compute. discriminate.
Defined.

(** ** Further properties of the slots *)

Lemma lookup_arraySet_Some columns position columnIdx other c :
  arraySet columns position columnIdx !! other = Some (Some c) ->
  (other = position /\ c = columnIdx) \/
  (other <> position /\ columns !! other = Some (Some c)).
Proof.
  destruct (decide (other = position)) as [->|Hne].
  { rewrite lookup_arraySet_eq. intros [= <-]. by left. }
  intros H. right. split; [done|]. revert H. unfold arraySet. case_decide.
  - by rewrite list_lookup_insert_ne.
  - destruct (decide (other < length columns)%nat) as [Hlt|Hge].
    + by rewrite lookup_app_l.
    + rewrite lookup_app_r by lia.
      destruct (decide (other - length columns < position - length columns)%nat).
      * rewrite lookup_app_l by (rewrite length_replicate; lia).
        rewrite lookup_replicate_2 by lia. done.
      * rewrite lookup_app_r by (rewrite length_replicate; lia).
        rewrite length_replicate.
        destruct (other - length columns - (position - length columns))%nat as [|k] eqn:E;
          [lia|done].
Qed.

Section OffsetsLoopContent.

Variable tree : gmap Z Z.
Variables startIdx endIdx renderedColumnsCount : Z.

Let loop n := offsetsLoop n tree startIdx endIdx renderedColumnsCount.

(** Every column found in [columnsToRender] is a visited column of the
    window, and sits at the slot the allocator has for it. *)
Lemma offsetsLoop_content n : forall columnIdx runningOffset columns offsets bufferSet,
  SlotAllocator.wf bufferSet ->
  startIdx <= columnIdx -> (n = 0%nat \/ columnIdx + Z.of_nat n <= endIdx) ->
  (forall q c, columns !! q = Some (Some c) ->
     startIdx <= c < columnIdx /\ bufferSet !! c = Some q) ->
  let result := loop n columnIdx runningOffset columns offsets bufferSet in
  forall q c, result.1.1 !! q = Some (Some c) ->
    startIdx <= c < columnIdx + Z.of_nat n /\ result.2 !! c = Some q.
Proof.
  induction n as [|n IH];
    intros columnIdx runningOffset columns offsets bufferSet Hwf Hlo Hhi Hinv.
  { simpl. intros q c Hq. destruct (Hinv q c Hq). split; [lia|done]. }
  simpl. unfold loop. rewrite offsetsLoop_S. simpl.
  pose proof (addColumnToBuffer_spec columnIdx bufferSet startIdx endIdx
                renderedColumnsCount Hwf) as Hadd.
  set (added := addColumnToBuffer columnIdx bufferSet startIdx endIdx renderedColumnsCount)
    in *.
  simpl in Hadd. destruct Hadd as (Hwf1 & Hself & Hkeep1 & _).
  intros q c Hq.
  destruct (IH (columnIdx + 1) (runningOffset + OffsetStore.get tree columnIdx)
              (arraySet columns added.1 columnIdx) (<[columnIdx := runningOffset]> offsets)
              added.2 Hwf1) with (q := q) (c := c) as [Hc Hslot]; [lia|lia| |done|].
  - intros q' c' Hq'. apply lookup_arraySet_Some in Hq' as [[-> ->]|[Hne Hold]].
    + split; [lia|done].
    + destruct (Hinv q' c' Hold) as [Hc' Hslot']. split; [lia|].
      apply Hkeep1; [lia|done].
  - split; [lia|done].
Qed.

End OffsetsLoopContent.

(** After a call on a well-formed allocator, slot [q] of [columnsToRender]
    holds column [c] exactly when [c] is a column of the window and the
    allocator has [c] at slot [q]: no column from outside the window is
    rendered and no window column is rendered twice. *)
Theorem computeRenderedColumnOffsets_columnsToRender state columnRange viewportOnly q c :
  SlotAllocator.wf (columnBufferSet state) ->
  endBufferCol columnRange - firstBufferCol columnRange <> 0 ->
  let window := windowOf columnRange viewportOnly in
  let after := computeRenderedColumnOffsets state columnRange viewportOnly in
  columnsToRender after !! q = Some (Some c)
  <-> window.1 <= c < window.2 /\
      SlotAllocator.getValuePosition (columnBufferSet after) c = Some q.
Proof.
  intros Hwf Hspan window after. unfold SlotAllocator.getValuePosition. split.
  - subst after window. rewrite computeRenderedColumnOffsets_run by done.
    destruct (windowOf columnRange viewportOnly) as [startIdx endIdx]. simpl.
    intros Hq.
    destruct (offsetsLoop_content (columnOffsetIntervalTree state) startIdx endIdx
                (endBufferCol columnRange - firstBufferCol columnRange)
                (Z.to_nat (endIdx - startIdx)) startIdx
                (OffsetStore.sumUntil (columnOffsetIntervalTree state) startIdx)
                [] ∅ (columnBufferSet state) Hwf) with (q := q) (c := c)
      as [Hc Hslot]; [lia|lia|done|done|].
    split; [lia|done].
  - intros [Hc Hslot].
    destruct (computeRenderedColumnOffsets_slots state columnRange viewportOnly Hwf Hspan)
      as (_ & _ & Hvisited).
    destruct (Hvisited c Hc) as (q' & Hslot' & Hcolumn).
    fold after in Hslot', Hcolumn. congruence.
Qed.

(** The content of [columnsToRender] after the window moved from columns 0-2
    to columns 2-4 of the five-column example. *)
Lemma computeRenderedColumnOffsets_columnsToRender_witness :
  let range1 :=
    {| endBufferCol := 3; endViewportCol := 3; firstBufferCol := 0; firstViewportCol := 0 |} in
  let range2 :=
    {| endBufferCol := 5; endViewportCol := 5; firstBufferCol := 2; firstViewportCol := 2 |} in
  let state := computeRenderedColumnOffsets fiveColumns range1 false in
  let after := computeRenderedColumnOffsets state range2 false in
  columnsToRender after !! 0%nat = Some (Some 3)
  <-> 2 <= 3 < 5 /\ SlotAllocator.getValuePosition (columnBufferSet after) 3 = Some 0%nat.
Proof.
  intros range1 range2 state.
  apply (computeRenderedColumnOffsets_columnsToRender state range2 false 0%nat 3).
  - destruct (computeRenderedColumnOffsets_slots fiveColumns range1 false wf_empty)
      as [Hwf _]; [vm_compute; discriminate|exact Hwf].
  - vm_compute. discriminate.
Defined.

(** ** Capacity of the Slot Allocator *)

Lemma pickFurthest_fold_None lowValue highValue (entries : list (Z * nat)) :
  foldr (SlotAllocator.pickFurthest lowValue highValue) None entries = None ->
  forall entry, entry ∈ entries -> lowValue <= entry.1 <= highValue.
Proof.
  induction entries as [|x entries IH]; simpl; intros Hnone entry Hin.
  { by apply elem_of_nil in Hin. }
  unfold SlotAllocator.pickFurthest in Hnone at 1.
  destruct (Z.leb_spec (SlotAllocator.distanceOutside lowValue highValue x.1) 0) as [Hd|Hd].
  - apply elem_of_cons in Hin as [->|Hin]; [|by apply IH].
    unfold SlotAllocator.distanceOutside in Hd.
    destruct (Z.ltb_spec x.1 lowValue); [lia|].
    destruct (Z.ltb_spec highValue x.1); lia.
  - destruct (foldr _ None entries) as [b|]; [|done].
    by destruct (SlotAllocator.further lowValue highValue b x).
Qed.

Lemma furthest_None_inside lowValue highValue (set : gmap Z nat) value position :
  SlotAllocator.furthest lowValue highValue set = None ->
  set !! value = Some position -> lowValue <= value <= highValue.
Proof.
  unfold SlotAllocator.furthest. intros Hnone Hvalue.
  apply (pickFurthest_fold_None _ _ _ Hnone (value, position)).
  by apply elem_of_map_to_list.
Qed.

(** A map whose keys lie in a closed interval and miss one of its points has
    fewer entries than the interval has points. *)
Lemma size_inside_window (set : gmap Z nat) lowValue highValue value :
  (forall v p, set !! v = Some p -> lowValue <= v <= highValue) ->
  set !! value = None -> lowValue <= value <= highValue ->
  Z.of_nat (size set) <= highValue - lowValue.
Proof.
  intros Hinside Hnone Hvalue.
  set (points := list_to_set (seqZ lowValue (highValue - lowValue + 1)) : gset Z).
  assert (Hpoints : size points = Z.to_nat (highValue - lowValue + 1)).
  { subst points. rewrite size_list_to_set by apply NoDup_seqZ. by rewrite length_seqZ. }
  assert (Hin : value ∈ points).
  { subst points. apply elem_of_list_to_set, elem_of_seqZ. lia. }
  assert (Hsub : dom set ⊆ points ∖ {[value]}).
  { intros v Hv. apply elem_of_dom in Hv as [p Hp].
    apply elem_of_difference. split.
    - subst points. apply elem_of_list_to_set, elem_of_seqZ.
      specialize (Hinside v p Hp). lia.
    - rewrite elem_of_singleton. congruence. }
  apply subseteq_size in Hsub. rewrite size_dom in Hsub.
  rewrite size_difference in Hsub by (by apply singleton_subseteq_l).
  rewrite size_singleton, Hpoints in Hsub. lia.
Qed.

(** A slot request for a window column does not take a well-formed allocator
    past a capacity that the window fits in. *)
Lemma addColumnToBuffer_capacity columnIdx (bufferSet : gmap Z nat)
    startRange endRange maxBufferSize :
  SlotAllocator.wf bufferSet ->
  startRange <= columnIdx < endRange -> endRange - startRange <= maxBufferSize ->
  Z.of_nat (size bufferSet) <= maxBufferSize ->
  Z.of_nat (size (addColumnToBuffer columnIdx bufferSet startRange endRange
                    maxBufferSize).2) <= maxBufferSize.
Proof.
  intros Hwf Hc Hfit Hsize. unfold addColumnToBuffer, SlotAllocator.getValuePosition.
  destruct (bufferSet !! columnIdx) as [p|] eqn:Hp; [done|].
  unfold SlotAllocator.getSize.
  destruct (Z.leb_spec maxBufferSize (Z.of_nat (size bufferSet))) as [Hfull|Hroom].
  - unfold SlotAllocator.replaceFurthestValuePosition.
    destruct (SlotAllocator.furthest startRange (endRange - 1) bufferSet)
      as [[victim position]|] eqn:Hf.
    + apply furthest_Some in Hf as [Hvictim _]. simpl.
      destruct (wf_replace bufferSet victim position columnIdx Hwf Hp Hvictim) as [_ ->].
      done.
    + exfalso.
      pose proof (size_inside_window bufferSet startRange (endRange - 1) columnIdx) as Hcard.
      assert (Z.of_nat (size bufferSet) <= endRange - 1 - startRange); [|lia].
      apply Hcard; [|done|lia].
      intros v p0 Hv. by eapply furthest_None_inside.
  - simpl. rewrite map_size_insert_None by done. lia.
Qed.

Section OffsetsLoopCapacity.

Variable tree : gmap Z Z.
Variables startIdx endIdx renderedColumnsCount : Z.

Let loop n := offsetsLoop n tree startIdx endIdx renderedColumnsCount.

Lemma offsetsLoop_capacity n : forall columnIdx runningOffset columns offsets bufferSet,
  SlotAllocator.wf bufferSet ->
  startIdx <= columnIdx -> (n = 0%nat \/ columnIdx + Z.of_nat n <= endIdx) ->
  endIdx - startIdx <= renderedColumnsCount ->
  Z.of_nat (size bufferSet) <= renderedColumnsCount ->
  Z.of_nat (size (loop n columnIdx runningOffset columns offsets bufferSet).2)
    <= renderedColumnsCount.
Proof.
  induction n as [|n IH];
    intros columnIdx runningOffset columns offsets bufferSet Hwf Hlo Hhi Hfit Hsize.
  { done. }
  unfold loop. rewrite offsetsLoop_S. simpl.
  pose proof (addColumnToBuffer_spec columnIdx bufferSet startIdx endIdx
                renderedColumnsCount Hwf) as Hadd.
  pose proof (addColumnToBuffer_capacity columnIdx bufferSet startIdx endIdx
                renderedColumnsCount Hwf) as Hcap.
  set (added := addColumnToBuffer columnIdx bufferSet startIdx endIdx renderedColumnsCount)
    in *.
  simpl in Hadd. destruct Hadd as (Hwf1 & _).
  apply IH; [done|lia|lia|done|]. apply Hcap; [lia|done|done].
Qed.

(** On an allocator that tracks exactly the columns visited so far, at the
    slots 0, 1, 2, ..., and has room for the window, the loop goes on
    handing out the next slots in order. *)
Lemma offsetsLoop_fresh n : forall columnIdx runningOffset columns offsets
    (bufferSet : gmap Z nat),
  startIdx <= columnIdx -> columnIdx + Z.of_nat n <= endIdx ->
  endIdx - startIdx <= renderedColumnsCount ->
  (forall v, bufferSet !! v =
     if decide (startIdx <= v < columnIdx) then Some (Z.to_nat (v - startIdx)) else None) ->
  size bufferSet = Z.to_nat (columnIdx - startIdx) ->
  columns = Some <$> seqZ startIdx (columnIdx - startIdx) ->
  let result := loop n columnIdx runningOffset columns offsets bufferSet in
  result.1.1 = Some <$> seqZ startIdx (columnIdx + Z.of_nat n - startIdx) /\
  (forall v, result.2 !! v =
     if decide (startIdx <= v < columnIdx + Z.of_nat n)
     then Some (Z.to_nat (v - startIdx)) else None).
Proof.
  induction n as [|n IH];
    intros columnIdx runningOffset columns offsets bufferSet Hlo Hhi Hfit Hset Hsize Hcolumns.
  { simpl. rewrite Z.add_0_r. done. }
  simpl. unfold loop. rewrite offsetsLoop_S.
  assert (Hadded : addColumnToBuffer columnIdx bufferSet startIdx endIdx renderedColumnsCount
                   = (Z.to_nat (columnIdx - startIdx),
                      <[columnIdx := Z.to_nat (columnIdx - startIdx)]> bufferSet)).
  { unfold addColumnToBuffer, SlotAllocator.getValuePosition.
    rewrite Hset. case_decide; [lia|].
    unfold SlotAllocator.getSize. rewrite Hsize.
    destruct (Z.leb_spec renderedColumnsCount
                (Z.of_nat (Z.to_nat (columnIdx - startIdx)))); [lia|].
    unfold SlotAllocator.getNewPositionForValue, SlotAllocator.getSize.
    by rewrite Hsize. }
  rewrite Hadded. simpl.
  assert (Hnone : bufferSet !! columnIdx = None) by (rewrite Hset; case_decide; [lia|done]).
  destruct (IH (columnIdx + 1) (runningOffset + OffsetStore.get tree columnIdx)
              (arraySet columns (Z.to_nat (columnIdx - startIdx)) columnIdx)
              (<[columnIdx := runningOffset]> offsets)
              (<[columnIdx := Z.to_nat (columnIdx - startIdx)]> bufferSet))
    as [Hcols Hslots].
  - lia.
  - lia.
  - done.
  - intros v. rewrite lookup_insert. case_decide as Hv.
    + subst v. by case_decide; [|lia].
    + rewrite Hset. repeat case_decide; try done; lia.
  - rewrite map_size_insert_None by done. lia.
  - unfold arraySet. rewrite Hcolumns, length_fmap, length_seqZ.
    case_decide; [lia|].
    replace (Z.to_nat (columnIdx - startIdx) - Z.to_nat (columnIdx - startIdx))%nat
      with 0%nat by lia.
    simpl.
    replace (columnIdx + 1 - startIdx) with ((columnIdx - startIdx) + 1) by lia.
    rewrite seqZ_app by lia. rewrite fmap_app. simpl.
    replace (startIdx + (columnIdx - startIdx)) with columnIdx by lia. done.
  - replace (columnIdx + Z.of_nat (S n)) with (columnIdx + 1 + Z.of_nat n) by lia.
    done.
Qed.

End OffsetsLoopCapacity.

(** First render: on an empty allocator and an ordered range, the columns of
    the window fill the slots 0, 1, 2, ... in index order, so
    [columnsToRender] lists the window from left to right without a hole. *)
Theorem computeRenderedColumnOffsets_first_render state columnRange viewportOnly :
  columnBufferSet state = ∅ ->
  firstBufferCol columnRange <= firstViewportCol columnRange ->
  firstViewportCol columnRange <= endViewportCol columnRange ->
  endViewportCol columnRange <= endBufferCol columnRange ->
  endBufferCol columnRange - firstBufferCol columnRange <> 0 ->
  let window := windowOf columnRange viewportOnly in
  let after := computeRenderedColumnOffsets state columnRange viewportOnly in
  columnsToRender after = Some <$> seqZ window.1 (window.2 - window.1) /\
  forall v, SlotAllocator.getValuePosition (columnBufferSet after) v =
    if decide (window.1 <= v < window.2) then Some (Z.to_nat (v - window.1)) else None.
Proof.
  intros Hempty Hfirst Hview Hend Hspan window after. subst after window.
  rewrite computeRenderedColumnOffsets_run by done.
  assert (Hwindow : (windowOf columnRange viewportOnly).1
                    <= (windowOf columnRange viewportOnly).2
                    <= (windowOf columnRange viewportOnly).1
                       + (endBufferCol columnRange - firstBufferCol columnRange)).
  { unfold windowOf. destruct viewportOnly; simpl; lia. }
  destruct (windowOf columnRange viewportOnly) as [startIdx endIdx].
  simpl in *. rewrite Hempty.
  destruct (offsetsLoop_fresh (columnOffsetIntervalTree state) startIdx endIdx
              (endBufferCol columnRange - firstBufferCol columnRange)
              (Z.to_nat (endIdx - startIdx)) startIdx
              (OffsetStore.sumUntil (columnOffsetIntervalTree state) startIdx)
              [] ∅ ∅) as [Hcolumns Hslots].
  - lia.
  - lia.
  - lia.
  - intros v. rewrite lookup_empty. case_decide; [lia|done].
  - rewrite map_size_empty. lia.
  - by rewrite Z.sub_diag.
  - replace (startIdx + Z.of_nat (Z.to_nat (endIdx - startIdx))) with endIdx
      in Hcolumns, Hslots by lia.
    split; [done|]. exact Hslots.
Qed.

(** The first render of the five-column example. *)
Lemma computeRenderedColumnOffsets_first_render_witness :
  let columnRange :=
    {| endBufferCol := 3; endViewportCol := 3; firstBufferCol := 0; firstViewportCol := 0 |} in
  let after := computeRenderedColumnOffsets fiveColumns columnRange true in
  columnsToRender after = Some <$> seqZ 0 (3 - 0) /\
  forall v, SlotAllocator.getValuePosition (columnBufferSet after) v =
    if decide (0 <= v < 3) then Some (Z.to_nat (v - 0)) else None.
Proof.
  intros columnRange.
  apply (computeRenderedColumnOffsets_first_render fiveColumns columnRange true).
  - reflexivity.
  - vm_compute. discriminate.
  - vm_compute. discriminate.
  - vm_compute. discriminate.
  - vm_compute. discriminate.
Defined.

(** An allocator that is within the buffer span size before a call is within
    it after the call, and then [columnsToRender] is no longer than the
    buffer span size. *)
Theorem computeRenderedColumnOffsets_within_capacity state columnRange viewportOnly :
  SlotAllocator.wf (columnBufferSet state) ->
  firstBufferCol columnRange <= firstViewportCol columnRange ->
  firstViewportCol columnRange <= endViewportCol columnRange ->
  endViewportCol columnRange <= endBufferCol columnRange ->
  let span := endBufferCol columnRange - firstBufferCol columnRange in
  Z.of_nat (SlotAllocator.getSize (columnBufferSet state)) <= span ->
  let after := computeRenderedColumnOffsets state columnRange viewportOnly in
  Z.of_nat (SlotAllocator.getSize (columnBufferSet after)) <= span /\
  Z.of_nat (length (columnsToRender after)) <= span.
Proof.
  intros Hwf Hfirst Hview Hend span Hsize after. subst after span.
  unfold SlotAllocator.getSize in *.
  destruct (decide (endBufferCol columnRange - firstBufferCol columnRange = 0))
    as [Hzero|Hspan].
  { unfold computeRenderedColumnOffsets. rewrite Hzero. simpl. lia. }
  rewrite computeRenderedColumnOffsets_run by done.
  assert (Hwindow : (windowOf columnRange viewportOnly).2
                    - (windowOf columnRange viewportOnly).1
                    <= endBufferCol columnRange - firstBufferCol columnRange).
  { unfold windowOf. destruct viewportOnly; simpl; lia. }
  destruct (windowOf columnRange viewportOnly) as [startIdx endIdx].
  simpl in *.
  pose proof (offsetsLoop_capacity (columnOffsetIntervalTree state) startIdx endIdx
                (endBufferCol columnRange - firstBufferCol columnRange)
                (Z.to_nat (endIdx - startIdx)) startIdx
                (OffsetStore.sumUntil (columnOffsetIntervalTree state) startIdx)
                [] ∅ (columnBufferSet state) Hwf) as Hcap.
  destruct (offsetsLoop_sizes (columnOffsetIntervalTree state) startIdx endIdx
              (endBufferCol columnRange - firstBufferCol columnRange)
              (Z.to_nat (endIdx - startIdx)) startIdx
              (OffsetStore.sumUntil (columnOffsetIntervalTree state) startIdx)
              [] ∅ (columnBufferSet state) Hwf)
    as (Hlength & _ & _); [simpl; lia|].
  assert (Z.of_nat (size (offsetsLoop (Z.to_nat (endIdx - startIdx))
                            (columnOffsetIntervalTree state) startIdx endIdx
                            (endBufferCol columnRange - firstBufferCol columnRange) startIdx
                            (OffsetStore.sumUntil (columnOffsetIntervalTree state) startIdx)
                            [] ∅ (columnBufferSet state)).2)
          <= endBufferCol columnRange - firstBufferCol columnRange)
    by (apply Hcap; lia).
  lia.
Qed.

(** The capacity bound when the window of the five-column example moves
    from columns 0-2 to columns 2-4. *)
Lemma computeRenderedColumnOffsets_within_capacity_witness :
  let range1 :=
    {| endBufferCol := 3; endViewportCol := 3; firstBufferCol := 0; firstViewportCol := 0 |} in
  let range2 :=
    {| endBufferCol := 5; endViewportCol := 5; firstBufferCol := 2; firstViewportCol := 2 |} in
  let state := computeRenderedColumnOffsets fiveColumns range1 false in
  let after := computeRenderedColumnOffsets state range2 false in
  Z.of_nat (SlotAllocator.getSize (columnBufferSet after)) <= 5 - 2 /\
  Z.of_nat (length (columnsToRender after)) <= 5 - 2.
Proof.
  intros range1 range2 state.
  apply (computeRenderedColumnOffsets_within_capacity state range2 false).
  - destruct (computeRenderedColumnOffsets_slots fiveColumns range1 false wf_empty)
      as [Hwf _]; [vm_compute; discriminate|exact Hwf].
  - vm_compute. discriminate.
  - vm_compute. discriminate.
  - vm_compute. discriminate.
  - vm_compute. discriminate.
Defined.

(** At capacity, with a tracked column outside the window: the new column
    takes over the slot of a tracked column that lies outside the window,
    that column is no longer tracked, and the tracked count stays the
    same. *)
Theorem addColumnToBuffer_evicts columnIdx (bufferSet : gmap Z nat)
    startRange endRange maxBufferSize :
  SlotAllocator.wf bufferSet ->
  SlotAllocator.getValuePosition bufferSet columnIdx = None ->
  maxBufferSize <= Z.of_nat (SlotAllocator.getSize bufferSet) ->
  (exists v p, SlotAllocator.getValuePosition bufferSet v = Some p /\
               (v < startRange \/ endRange - 1 < v)) ->
  let result := addColumnToBuffer columnIdx bufferSet startRange endRange maxBufferSize in
  exists victim,
    SlotAllocator.getValuePosition bufferSet victim = Some result.1 /\
    (victim < startRange \/ endRange - 1 < victim) /\
    result.2 = <[columnIdx := result.1]> (delete victim bufferSet) /\
    SlotAllocator.getValuePosition result.2 victim = None /\
    SlotAllocator.getSize result.2 = SlotAllocator.getSize bufferSet.
Proof.
  intros Hwf Hnone Hfull (v & p & Hv & Hout) result. subst result.
  unfold addColumnToBuffer, SlotAllocator.getValuePosition, SlotAllocator.getSize in *.
  rewrite Hnone.
  destruct (Z.leb_spec maxBufferSize (Z.of_nat (size bufferSet))); [|lia].
  unfold SlotAllocator.replaceFurthestValuePosition.
  destruct (SlotAllocator.furthest startRange (endRange - 1) bufferSet)
    as [[victim position]|] eqn:Hf.
  - apply furthest_Some in Hf as [Hvictim Houtside]. simpl.
    destruct (wf_replace bufferSet victim position columnIdx Hwf Hnone Hvictim)
      as [_ Hsize].
    exists victim. split; [done|]. split; [done|]. split; [done|]. split; [|done].
    rewrite lookup_insert_ne by congruence. by rewrite lookup_delete_eq.
  - exfalso. pose proof (furthest_None_inside _ _ _ _ _ Hf Hv). lia.
Qed.

(** An eviction: columns 0 to 2 are tracked, the window is [[2, 4]] and
    column 3 asks for a slot. *)
Lemma addColumnToBuffer_evicts_witness :
  let bufferSet : gmap Z nat := {[0 := 0%nat; 1 := 1%nat; 2 := 2%nat]} in
  let result := addColumnToBuffer 3 bufferSet 2 5 3 in
  exists victim,
    SlotAllocator.getValuePosition bufferSet victim = Some result.1 /\
    (victim < 2 \/ 5 - 1 < victim) /\
    result.2 = <[3 := result.1]> (delete victim bufferSet) /\
    SlotAllocator.getValuePosition result.2 victim = None /\
    SlotAllocator.getSize result.2 = SlotAllocator.getSize bufferSet.
Proof.
  intros bufferSet.
  apply (addColumnToBuffer_evicts 3 bufferSet 2 5 3).
  - set (range1 := {| endBufferCol := 3; endViewportCol := 3;
                      firstBufferCol := 0; firstViewportCol := 0 |}).
    destruct (computeRenderedColumnOffsets_slots fiveColumns range1 false wf_empty)
      as [Hwf _]; [vm_compute; discriminate|].
    replace bufferSet
      with (columnBufferSet (computeRenderedColumnOffsets fiveColumns range1 false));
      [exact Hwf|].
    vm_compute. reflexivity.
  - reflexivity.
  - vm_compute. discriminate.
  - exists 0, 0%nat. split; [reflexivity|]. left. lia.
Defined.

(** ** Invariants across calls *)

Lemma computeRenderedColumnOffsets_allocator state columnRange viewportOnly :
  SlotAllocator.wf (columnBufferSet state) ->
  let after := computeRenderedColumnOffsets state columnRange viewportOnly in
  SlotAllocator.wf (columnBufferSet after) /\
  (size (columnBufferSet state) <= size (columnBufferSet after))%nat /\
  (length (columnsToRender after) <= size (columnBufferSet after))%nat.
Proof.
  intros Hwf after. subst after.
  destruct (decide (endBufferCol columnRange - firstBufferCol columnRange = 0))
    as [Hzero|Hspan].
  { unfold computeRenderedColumnOffsets. rewrite Hzero. simpl. split; [done|lia]. }
  destruct (computeRenderedColumnOffsets_slots state columnRange viewportOnly Hwf Hspan)
    as (Hwf' & _).
  split; [done|].
  rewrite computeRenderedColumnOffsets_run by done.
  destruct (windowOf columnRange viewportOnly) as [startIdx endIdx]. simpl.
  destruct (offsetsLoop_sizes (columnOffsetIntervalTree state) startIdx endIdx
              (endBufferCol columnRange - firstBufferCol columnRange)
              (Z.to_nat (endIdx - startIdx)) startIdx
              (OffsetStore.sumUntil (columnOffsetIntervalTree state) startIdx)
              [] ∅ (columnBufferSet state) Hwf)
    as (Hlength & _ & Hsize); [simpl; lia|].
  lia.
Qed.

(** Whatever the anchor, a result of the reducer carries a well-formed
    allocator if the input does; the allocator never loses a slot, and
    [columnsToRender] is never longer than the allocator's tracked count. *)
Theorem computeRenderedColumns_allocator state columnAnchor state' :
  SlotAllocator.wf (columnBufferSet state) ->
  computeRenderedColumns state columnAnchor = Some state' ->
  SlotAllocator.wf (columnBufferSet state') /\
  (SlotAllocator.getSize (columnBufferSet state)
   <= SlotAllocator.getSize (columnBufferSet state'))%nat /\
  (length (columnsToRender state') <= SlotAllocator.getSize (columnBufferSet state'))%nat.
Proof.
  intros Hwf. unfold computeRenderedColumns, SlotAllocator.getSize.
  destruct (calculateRenderedColumnRange state columnAnchor) as [[state1 columnRange]|]
    eqn:Hrange; [|done].
  simpl.
  destruct (calculateRenderedColumnRange_writes _ _ _ _ Hrange)
    as (_ & _ & _ & _ & _ & _ & Hset & _).
  rewrite <- Hset in Hwf |- *.
  pose proof (computeRenderedColumnOffsets_allocator state1 columnRange (scrolling state1) Hwf)
    as Hafter.
  destruct (if firstViewportCol columnRange =? endViewportCol columnRange
            then Some (scrollX state) else _) as [x|]; [|done].
  simpl. intros [= <-]. exact Hafter.
Qed.

(** The allocator after two calls of the reducer on the five-column
    example. *)
Lemma computeRenderedColumns_allocator_witness :
  exists state1 state2,
    computeRenderedColumns fiveColumns (forwardAnchor 0 0) = Some state1 /\
    computeRenderedColumns state1 (backwardAnchor 4) = Some state2 /\
    SlotAllocator.wf (columnBufferSet state2) /\
    (SlotAllocator.getSize (columnBufferSet fiveColumns)
     <= SlotAllocator.getSize (columnBufferSet state2))%nat /\
    (length (columnsToRender state2) <= SlotAllocator.getSize (columnBufferSet state2))%nat.
Proof.
  destruct (computeRenderedColumns fiveColumns (forwardAnchor 0 0)) as [state1|] eqn:H1;
    [|vm_compute in H1; discriminate].
  destruct (computeRenderedColumns state1 (backwardAnchor 4)) as [state2|] eqn:H2.
  2:{ vm_compute in H1. injection H1 as <-. vm_compute in H2. discriminate. }
  exists state1, state2. split; [reflexivity|]. split; [exact H2|].
  destruct (computeRenderedColumns_allocator fiveColumns (forwardAnchor 0 0) state1
              wf_empty H1) as (Hwf1 & Hsize1 & _).
  destruct (computeRenderedColumns_allocator state1 (backwardAnchor 4) state2 Hwf1 H2)
    as (Hwf2 & Hsize2 & Hlength2).
  split; [exact Hwf2|]. split; [lia|exact Hlength2].
Defined.

(** ** Running a stage again *)

Lemma addColumnToBuffer_tracked columnIdx (bufferSet : gmap Z nat)
    startRange endRange maxBufferSize position :
  bufferSet !! columnIdx = Some position ->
  addColumnToBuffer columnIdx bufferSet startRange endRange maxBufferSize
    = (position, bufferSet).
Proof.
  intros H. unfold addColumnToBuffer, SlotAllocator.getValuePosition. by rewrite H.
Qed.

Section OffsetsLoopAgain.

Variable tree : gmap Z Z.
Variables startIdx endIdx renderedColumnsCount : Z.

Let loop n := offsetsLoop n tree startIdx endIdx renderedColumnsCount.

(** The loop, run again on the allocator it left, gives the same result. *)
Lemma offsetsLoop_again n : forall columnIdx runningOffset columns offsets bufferSet,
  SlotAllocator.wf bufferSet ->
  startIdx <= columnIdx -> (n = 0%nat \/ columnIdx + Z.of_nat n <= endIdx) ->
  let result := loop n columnIdx runningOffset columns offsets bufferSet in
  loop n columnIdx runningOffset columns offsets result.2 = result.
Proof.
  induction n as [|n IH];
    intros columnIdx runningOffset columns offsets bufferSet Hwf Hlo Hhi.
  { done. }
  simpl. unfold loop. rewrite !offsetsLoop_S. simpl.
  pose proof (addColumnToBuffer_spec columnIdx bufferSet startIdx endIdx
                renderedColumnsCount Hwf) as Hadd.
  set (added := addColumnToBuffer columnIdx bufferSet startIdx endIdx renderedColumnsCount)
    in *.
  simpl in Hadd. destruct Hadd as (Hwf1 & Hself & _).
  set (tail := offsetsLoop n tree startIdx endIdx renderedColumnsCount (columnIdx + 1)
                 (runningOffset + OffsetStore.get tree columnIdx)
                 (arraySet columns added.1 columnIdx)
                 (<[columnIdx := runningOffset]> offsets) added.2).
  destruct (offsetsLoop_slots tree startIdx endIdx renderedColumnsCount n (columnIdx + 1)
              (runningOffset + OffsetStore.get tree columnIdx)
              (arraySet columns added.1 columnIdx)
              (<[columnIdx := runningOffset]> offsets) added.2 Hwf1)
    as (_ & Hkeep & _); [lia|lia|].
  fold tail in Hkeep.
  rewrite (addColumnToBuffer_tracked columnIdx tail.2 _ _ _ added.1)
    by (apply Hkeep; [lia|done]).
  simpl. apply (IH (columnIdx + 1)); [done|lia|lia].
Qed.

End OffsetsLoopAgain.

Lemma computeRenderedColumnOffsets_repeat state columnRange viewportOnly :
  SlotAllocator.wf (columnBufferSet state) ->
  let after := computeRenderedColumnOffsets state columnRange viewportOnly in
  computeRenderedColumnOffsets after columnRange viewportOnly = after.
Proof.
  intros Hwf after. subst after.
  destruct (decide (endBufferCol columnRange - firstBufferCol columnRange = 0))
    as [Hzero|Hspan].
  { unfold computeRenderedColumnOffsets. rewrite Hzero. done. }
  rewrite !computeRenderedColumnOffsets_run by done.
  destruct (windowOf columnRange viewportOnly) as [startIdx endIdx]. simpl.
  rewrite offsetsLoop_again by (try done; lia). done.
Qed.

(** Assigning offsets and slots a second time for the same range changes
    nothing. *)
Theorem computeRenderedColumnOffsets_again state columnRange viewportOnly :
  SlotAllocator.wf (columnBufferSet state) ->
  let after := computeRenderedColumnOffsets state columnRange viewportOnly in
  computeRenderedColumnOffsets after columnRange viewportOnly = after.
Proof.
  intros Hwf after. subst after.
  destruct (decide (endBufferCol columnRange - firstBufferCol columnRange = 0))
    as [Hzero|Hspan].
  { unfold computeRenderedColumnOffsets. rewrite Hzero. done. }
  rewrite !computeRenderedColumnOffsets_run by done.
  destruct (windowOf columnRange viewportOnly) as [startIdx endIdx]. simpl.
  rewrite offsetsLoop_again by (try done; lia). done.
Qed.

(** The second pass over the window 2-4 of the five-column example. *)
Lemma computeRenderedColumnOffsets_again_witness :
  let columnRange :=
    {| endBufferCol := 5; endViewportCol := 5; firstBufferCol := 2; firstViewportCol := 2 |} in
  let after := computeRenderedColumnOffsets fiveColumns columnRange false in
  computeRenderedColumnOffsets after columnRange false = after.
Proof.
  intros columnRange.
  apply (computeRenderedColumnOffsets_again fiveColumns columnRange false).
  exact wf_empty.
Defined.

Lemma set_columnOffsetIntervalTree_id state :
  set_columnOffsetIntervalTree (columnOffsetIntervalTree state) state = state.
Proof. by destruct state. Qed.

(** A measured width that the store already holds survives the walk. *)
Lemma walkViewport_keeps_measured fuel columnCount available step :
  forall state columnIdx endIdy totalWidth result j,
  walkViewport fuel columnCount available step state columnIdx endIdy totalWidth
    = Some result ->
  columnOffsetIntervalTree state !! j
    = Some (widthAt (scrollableColumns (columnWidths state)) j) ->
  columnOffsetIntervalTree result.1.1 !! j
    = Some (widthAt (scrollableColumns (columnWidths state)) j).
Proof.
  induction fuel as [|fuel IH]; intros state columnIdx endIdy totalWidth result j; [done|].
  unfold walkViewport; fold walkViewport.
  destruct ((columnIdx <? columnCount) && (0 <=? columnIdx) && (totalWidth <? available)).
  - destruct (updateColumnWidth state columnIdx) as [[state1 w]|] eqn:Hupdate; [|done].
    apply updateColumnWidth_Some in Hupdate as (_ & -> & ->).
    simpl. intros Hrun Hj.
    apply (IH _ _ _ _ _ j) in Hrun; [exact Hrun|].
    simpl. unfold OffsetStore.set. rewrite lookup_insert.
    case_decide; [by subst|done].
  - intros [= <-] Hj. done.
Qed.

(** The walk, run again on a state that holds the store it left, ends at
    the same column with the same width and leaves that state as it is. *)
Lemma walkViewport_again fuel columnCount available step :
  forall state columnIdx endIdy totalWidth state' endIdy' total state2,
  walkViewport fuel columnCount available step state columnIdx endIdy totalWidth
    = Some (state', endIdy', total) ->
  columnLayout state2 = columnLayout state ->
  columnOffsetIntervalTree state2 = columnOffsetIntervalTree state' ->
  walkViewport fuel columnCount available step state2 columnIdx endIdy totalWidth
    = Some (state2, endIdy', total).
Proof.
  induction fuel as [|fuel IH];
    intros state columnIdx endIdy totalWidth state' endIdy' total state2; [done|].
  unfold walkViewport; fold walkViewport.
  destruct ((columnIdx <? columnCount) && (0 <=? columnIdx) && (totalWidth <? available)).
  - destruct (updateColumnWidth state columnIdx) as [[state1 w]|] eqn:Hupdate; [|done].
    simpl. intros Hrun Hlayout Htree.
    pose proof Hupdate as (Hidx & Hw & Hstate1)%updateColumnWidth_Some.
    assert (Hupdate2 : updateColumnWidth state2 columnIdx = Some (state2, w)).
    { rewrite updateColumnWidth_inside
        by (unfold columnCountOf, columnWidths in *; by rewrite Hlayout).
      unfold columnWidths in *. rewrite Hlayout, <- Hw.
      unfold OffsetStore.set. rewrite insert_id.
      - by rewrite set_columnOffsetIntervalTree_id.
      - rewrite Htree.
        pose proof (walkViewport_keeps_measured _ _ _ _ _ _ _ _ _ columnIdx Hrun) as Hkept.
        simpl in Hkept. rewrite Hkept.
        + f_equal. rewrite Hw, Hstate1. done.
        + rewrite Hstate1. simpl. unfold OffsetStore.set.
          rewrite lookup_insert_eq, Hw. done. }
    rewrite Hupdate2. simpl.
    apply (IH _ _ _ _ _ _ _ _ Hrun); [|done].
    rewrite Hlayout, Hstate1. done.
  - intros [= <- <- <-] _ _. done.
Qed.

(** The range calculator, run again on a state that carries the span and
    the store it produced, returns that state and the same range. *)
Lemma calculateRenderedColumnRange_again state columnAnchor state1 columnRange state2 :
  ~ degenerate state -> anchorWellFormed state columnAnchor ->
  calculateRenderedColumnRange state columnAnchor = Some (state1, columnRange) ->
  columnLayout state2 = columnLayout state ->
  columnOffsetIntervalTree state2 = columnOffsetIntervalTree state1 ->
  firstColumnIndex state2 = firstColumnIndex state1 ->
  endColumnIndex state2 = endColumnIndex state1 ->
  firstColumnOffset state2 = firstColumnOffset state1 ->
  calculateRenderedColumnRange state2 columnAnchor = Some (state2, columnRange).
Proof.
  intros Hnd Hwf Hrange Hlayout Htree Hfirst Hend Hoffset.
  assert (Hcount : 0 < columnCountOf state).
  { unfold degenerate in Hnd. unfold columnCountOf in *. lia. }
  assert (Hwidths : columnWidths state2 = columnWidths state) by done.
  assert (Hcount2 : columnCountOf state2 = columnCountOf state)
    by (unfold columnCountOf; by rewrite Hwidths).
  assert (Hnd2 : ~ degenerate state2)
    by (unfold degenerate; by rewrite Hwidths, Hcount2).
  assert (Hclamped : clampedLastIndex state2 columnAnchor
                     = clampedLastIndex state columnAnchor)
    by (unfold clampedLastIndex; by rewrite Hcount2).
  assert (Hsame : forall first end_ offset walked range,
            Some (set_columnSpan first end_ offset walked, range)
              = Some (state1, columnRange) ->
            columnOffsetIntervalTree state2 = columnOffsetIntervalTree walked /\
            set_columnSpan first end_ offset state2 = state2 /\ range = columnRange).
  { intros first end_ offset walked range [= <- <-]. simpl in *.
    split; [done|]. split; [|done].
    destruct state2; simpl in *; by subst. }
  assert (Hagain : forall step startIdy total walked endIdy totalWidth offset,
            walkViewport (S (Z.to_nat (columnCountOf state))) (columnCountOf state)
              (availableScrollWidth (columnWidths state)) step state startIdy startIdy total
              = Some (walked, endIdy, totalWidth) ->
            (clampedLastIndex state columnAnchor = Some startIdy /\ step = -1 /\ total = 0 /\
             offset = Z.min (availableScrollWidth (columnWidths state) - totalWidth) 0) \/
            (clampedLastIndex state columnAnchor = None /\ step = 1 /\
             firstIndex columnAnchor = Some startIdy /\
             firstOffset columnAnchor = Some total /\ offset = total) ->
            calculateRenderedColumnRange state2 columnAnchor = Some (state2, columnRange)).
  { intros step startIdy total walked endIdy totalWidth offset Hrun Hcase.
    pose proof (calculateRenderedColumnRange_of_walk state columnAnchor step startIdy total
                  offset walked endIdy totalWidth Hnd Hcase Hrun) as Hfirstrun.
    rewrite Hrange in Hfirstrun. symmetry in Hfirstrun.
    apply Hsame in Hfirstrun as (Htree' & Hfix & Hr).
    pose proof (walkViewport_again _ _ _ _ _ _ _ _ _ _ _ state2 Hrun Hlayout Htree') as Hrun2.
    rewrite <- Hcount2, <- Hwidths in Hrun2.
    rewrite <- Hclamped, <- Hwidths in Hcase.
    rewrite (calculateRenderedColumnRange_of_walk state2 columnAnchor step startIdy total
               offset state2 endIdy totalWidth Hnd2 Hcase Hrun2).
    rewrite Hfix, Hcount2, Hr. done. }
  unfold anchorWellFormed in Hwf.
  destruct (clampedLastIndex state columnAnchor) as [l|] eqn:Hl.
  - pose proof (clampedLastIndex_below _ _ _ Hl Hcount) as Hlt.
    destruct (walkViewport_backward (columnLayout state) (S (Z.to_nat (columnCountOf state)))
                state l l 0 eq_refl) as (walked & stop & Hrun & _).
    { unfold columnCountOf, columnWidths in Hlt. lia. }
    { lia. }
    eapply (Hagain (-1) l 0); [exact Hrun|]. left. repeat split; reflexivity.
  - destruct (firstIndex columnAnchor) as [i|] eqn:Hi; [|done].
    destruct (firstOffset columnAnchor) as [o|] eqn:Ho; [|done].
    pose proof (clampedLastIndex_forward _ _ _ Hl Hi) as Hlt.
    destruct (walkViewport_forward (columnLayout state) (S (Z.to_nat (columnCountOf state)))
                state i i o eq_refl) as (walked & stop & Hrun & _).
    { unfold columnCountOf, columnWidths in Hlt. lia. }
    { unfold columnCountOf, columnWidths in *. lia. }
    eapply (Hagain 1 i o); [exact Hrun|]. right. repeat split; reflexivity.
Qed.

Lemma computeRenderedColumnOffsets_set_scrollX x state columnRange viewportOnly :
  computeRenderedColumnOffsets (set_scrollX x state) columnRange viewportOnly
  = set_scrollX x (computeRenderedColumnOffsets state columnRange viewportOnly).
Proof.
  unfold computeRenderedColumnOffsets. simpl.
  destruct (endBufferCol columnRange - firstBufferCol columnRange =? 0); [done|].
  destruct (windowOf columnRange viewportOnly) as [startIdx endIdx].
  destruct (offsetsLoop _ _ _ _ _ _ _ _ _ _) as [[columns offsets] bufferSet]. done.
Qed.

(** Running the reducer again with the same anchor on its own result
    changes nothing: same span, same offsets, same slots, same store, same
    [scrollX]. *)
Theorem computeRenderedColumns_again state columnAnchor :
  ~ degenerate state -> anchorWellFormed state columnAnchor ->
  SlotAllocator.wf (columnBufferSet state) ->
  exists state',
    computeRenderedColumns state columnAnchor = Some state' /\
    computeRenderedColumns state' columnAnchor = Some state'.
Proof.
  intros Hnd Hwf Hset.
  destruct (computeRenderedColumns_stages state columnAnchor Hnd Hwf)
    as (state1 & columnRange & offset & Hrange & Hfirst & Hend & Hbounds & Hoffset & Hrun).
  cbv zeta in Hoffset, Hrun.
  set (assigned := computeRenderedColumnOffsets state1 columnRange (scrolling state1)) in *.
  set (x := clamp (offset - firstColumnOffset assigned) 0 (maxScrollX (columnWidths state)))
    in *.
  exists (set_scrollX x assigned). split; [exact Hrun|].
  destruct (calculateRenderedColumnRange_writes _ _ _ _ Hrange)
    as (_ & _ & _ & _ & _ & _ & Hset1 & Hlayout1).
  destruct (computeRenderedColumnOffsets_frame state1 columnRange (scrolling state1))
    as (Hfi & Hei & Hfo & _ & Hscrolling & Htree & Hlayout).
  fold assigned in Hfi, Hei, Hfo, Hscrolling, Htree, Hlayout.
  assert (Hrange2 : calculateRenderedColumnRange (set_scrollX x assigned) columnAnchor
                    = Some (set_scrollX x assigned, columnRange)).
  { apply (calculateRenderedColumnRange_again state columnAnchor state1); try done.
    simpl. congruence. }
  rewrite (computeRenderedColumns_unfold _ _ _ _ Hrange2). simpl.
  rewrite Hscrolling, computeRenderedColumnOffsets_set_scrollX.
  assert (Hagain : computeRenderedColumnOffsets assigned columnRange (scrolling state1)
                   = assigned).
  { subst assigned. apply computeRenderedColumnOffsets_repeat. by rewrite Hset1. }
  rewrite Hagain. simpl.
  destruct (Z.eqb_spec (firstViewportCol columnRange) (endViewportCol columnRange)); [lia|].
  rewrite Hoffset. simpl.
  unfold columnWidths in *. rewrite Hlayout, Hlayout1. fold x. done.
Qed.

(** The second run on the five-column example, anchored at the last
    column. *)
Lemma computeRenderedColumns_again_witness :
  exists state',
    computeRenderedColumns fiveColumns (backwardAnchor 4) = Some state' /\
    computeRenderedColumns state' (backwardAnchor 4) = Some state'.
Proof.
  apply (computeRenderedColumns_again fiveColumns (backwardAnchor 4)).
  - vm_compute. intros [H|H]; discriminate.
  - vm_compute. discriminate.
  - exact wf_empty.
Defined.

(** ** No read outside the column list *)

(** For every anchor whose driving fields are defined, a negative index
    included, the range calculator has a result: its walk ends within its
    fuel and no column descriptor outside the column list is read.  The
    column the walk starts from always lies in the viewport span.  For a
    start inside the column list the viewport lies inside the list.  For a
    start left of the first column nothing is measured and the range is the
    one-column span at that index, with [firstBufferCol] cut to 0. *)
Theorem calculateRenderedColumnRange_in_bounds state columnAnchor startIdy :
  ~ degenerate state ->
  drivingIndex state columnAnchor = Some startIdy ->
  (clampedLastIndex state columnAnchor = None -> is_Some (firstOffset columnAnchor)) ->
  exists state' columnRange,
    calculateRenderedColumnRange state columnAnchor = Some (state', columnRange) /\
    firstViewportCol columnRange <= startIdy < endViewportCol columnRange /\
    (0 <= startIdy ->
     0 <= firstViewportCol columnRange /\
     endViewportCol columnRange <= columnCountOf state) /\
    (startIdy < 0 ->
     firstViewportCol columnRange = startIdy /\
     endViewportCol columnRange = startIdy + 1 /\
     firstBufferCol columnRange = 0 /\
     endBufferCol columnRange = startIdy + 1 /\
     columnOffsetIntervalTree state' = columnOffsetIntervalTree state).
Proof.
  intros Hnd Hstart Hoffset. unfold drivingIndex in Hstart.
  assert (Hcount : 0 < columnCountOf state).
  { unfold degenerate in Hnd. unfold columnCountOf in *. lia. }
  destruct (clampedLastIndex state columnAnchor) as [l|] eqn:Hl.
  - injection Hstart as ->.
    pose proof (clampedLastIndex_below _ _ _ Hl Hcount) as Hlt.
    destruct (decide (startIdy < 0)) as [Hneg|Hpos].
    + eexists _, _. split.
      { apply (calculateRenderedColumnRange_outside state columnAnchor (-1) startIdy 0);
          [done|done|left; done]. }
      simpl. split; [lia|]. split; [lia|]. done.
    + destruct (calculateRenderedColumnRange_backward state columnAnchor startIdy Hnd Hl)
        as (state' & stop & Hrange & _ & Hstop & _); [lia|].
      eexists _, _. split; [exact Hrange|]. simpl.
      destruct (Z.eqb_spec stop startIdy); (split; [lia|]); (split; [lia|]); lia.
  - destruct (Hoffset eq_refl) as [o Ho].
    pose proof (clampedLastIndex_forward _ _ _ Hl Hstart) as Hlt.
    destruct (decide (startIdy < 0)) as [Hneg|Hpos].
    + eexists _, _. split.
      { apply (calculateRenderedColumnRange_outside state columnAnchor 1 startIdy o);
          [done|done|right; done]. }
      simpl. split; [lia|]. split; [lia|]. done.
    + destruct (calculateRenderedColumnRange_forward state columnAnchor startIdy o
                  Hnd Hl Hstart Ho)
        as (state' & stop & Hrange & _ & Hstop & _); [lia|].
      eexists _, _. split; [exact Hrange|]. simpl.
      destruct (Z.eqb_spec stop startIdy); (split; [lia|]); (split; [lia|]); lia.
Qed.

(** An anchor left of the first of five columns. *)
Lemma calculateRenderedColumnRange_in_bounds_witness :
  exists state' columnRange,
    calculateRenderedColumnRange fiveColumns (backwardAnchor (-3))
      = Some (state', columnRange) /\
    firstViewportCol columnRange = -3 /\
    endViewportCol columnRange = -2 /\
    firstBufferCol columnRange = 0 /\
    endBufferCol columnRange = -2 /\
    columnOffsetIntervalTree state' = columnOffsetIntervalTree fiveColumns.
Proof.
  destruct (calculateRenderedColumnRange_in_bounds fiveColumns (backwardAnchor (-3)) (-3))
    as (state' & columnRange & Hrange & _ & _ & Hleft).
  - vm_compute. intros [H|H]; discriminate.
  - reflexivity.
  - intros H. vm_compute in H. discriminate.
  - exists state', columnRange. split; [exact Hrange|].
    apply Hleft. lia.
Defined.
